(** * Debug-mode log collection: collector, clear-logs, analyzer, tailer

    A shallow embedding of the four scripts that share the Entry Store
    [.debug/debug.log]:

    - [scripts/collector.mjs]   (module [Collector])
    - [scripts/clear-logs.mjs]  (module [ClearLogs])
    - [scripts/analyze-logs.mjs] (modules [Analyzer], [Report], [Summary])
    - [scripts/tail-logs.mjs]   (modules [Tailer], [Watch])
    - [lib/logger-snippet.mjs]  (module [Logger])

    Conventions of the embedding.

    - Text is a [string] of bytes holding UTF-8, the encoding of the store
      on disk.  [statSync(..).size] counts bytes; the JavaScript string
      operations that count UTF-16 code units ([slice], [trim]) are
      defined over the characters of that text ([utf8_chars]).
    - JavaScript numbers are the integer-valued ones, as [Z]; an
      integer below 2^53 in magnitude stands for itself
      ([Spec.safe_integer]), and [Report.to_double] rounds a difference
      as the arithmetic of the numbers of JavaScript does.
    - Objects used as dictionaries: [Analyzer] reads them as
      [gmap string _], which they are at the keys that name no property
      of [Object.prototype]; [Report] is [analyzeEntries] with the
      lookups of inherited properties, and [loop_lift] and
      [loop_skeleton] relate the two.
    - [JSON.parse] and [JSON.stringify] are built-ins of the runtime and
      enter as section variables; [MiniJson] gives an executable instance
      used to run the model on concrete requests and stores.
    - The collector inspects whatever JSON value a request carries.  The
      analyzer and the tailer read the lines of the store at the type
      [entry], the [DebugEntry] interface of [lib/logger-snippet.mjs].
    - File-system calls either return or throw; a write throws when
      the [.debug] directory is missing and when [debug.log] may not be
      written.
    - [Date.now()] is a parameter: a value per request in the collector,
      a sequence of readings in the analyzer.
    - [Tailer.readNewContent] is a detection cycle of the tailer on one
      state of the store; in [Watch] other processes write between the
      file-system calls of a cycle. *)

From Stdlib Require Import ZArith NArith Ascii String List Lia Bool.
From stdpp Require Import gmap strings list fin_maps.

Local Open Scope Z_scope.
Local Open Scope nat_scope.

(* ===================================================================== *)
(** * Text: bytes, characters, and the string methods the scripts call   *)
(* ===================================================================== *)

Module Text.

Definition byte (c : ascii) : N := N_of_ascii c.

Definition newline : ascii := ascii_of_N 10.

Definition is_newline (c : ascii) : bool := N.eqb (byte c) 10.

(** A continuation byte of a multi-byte UTF-8 sequence: [10xxxxxx]. *)
Definition is_continuation (c : ascii) : bool :=
  N.leb 128 (byte c) && N.ltb (byte c) 192.

(** Number of bytes announced by a lead byte. *)
Definition utf8_width (c : ascii) : nat :=
  if N.ltb (byte c) 192 then 1
  else if N.ltb (byte c) 224 then 2
  else if N.ltb (byte c) 240 then 3
  else 4.

Definition single (c : ascii) : string := String c EmptyString.

Definition flush (cur : string) : list string :=
  match cur with EmptyString => [] | _ => [cur] end.

(** Cut a UTF-8 text into its characters.  [cur] is the character being
    assembled and [need] the number of continuation bytes it still
    lacks.  A sequence that is cut short is closed where it stops. *)
Fixpoint utf8_chars_from (cur : string) (need : nat) (s : string)
  : list string :=
  match s with
  | EmptyString => flush cur
  | String b s' =>
      match need with
      | S k =>
          if is_continuation b then
            match k with
            | O => (cur +:+ single b) :: utf8_chars_from EmptyString 0 s'
            | S _ => utf8_chars_from (cur +:+ single b) k s'
            end
          else
            flush cur ++
            match utf8_width b with
            | S (S w) => utf8_chars_from (single b) (S w) s'
            | _ => single b :: utf8_chars_from EmptyString 0 s'
            end
      | O =>
          flush cur ++
          match utf8_width b with
          | S (S w) => utf8_chars_from (single b) (S w) s'
          | _ => single b :: utf8_chars_from EmptyString 0 s'
          end
      end
  end.

Definition utf8_chars (s : string) : list string :=
  utf8_chars_from EmptyString 0 s.

Fixpoint concat_strings (l : list string) : string :=
  match l with
  | [] => EmptyString
  | s :: l' => s +:+ concat_strings l'
  end.

(** UTF-16 code units of one character: two for a four-byte sequence
    (a surrogate pair), one otherwise. *)
Definition units (c : string) : nat :=
  if Nat.eqb (String.length c) 4 then 2 else 1.

(** [s.length] *)
Definition js_length (s : string) : nat :=
  fold_right (fun c n => units c + n) 0 (utf8_chars s).

(** U+FFFD, which is what a surrogate cut off from its pair reads as
    once the text is written out again. *)
Definition replacement : string :=
  String (ascii_of_N 239) (String (ascii_of_N 191) (single (ascii_of_N 189))).

Fixpoint drop_units (n : nat) (cs : list string) : list string :=
  match n, cs with
  | O, _ => cs
  | S _, [] => []
  | S n', c :: cs' =>
      if Nat.eqb (units c) 2 then
        match n' with
        | O => replacement :: cs'
        | S n'' => drop_units n'' cs'
        end
      else drop_units n' cs'
  end.

(** [s.slice(n)] for [n >= 0]: the text from code unit [n] on. *)
Definition js_slice (n : nat) (s : string) : string :=
  concat_strings (drop_units n (utf8_chars s)).

(** The bytes of [s] from byte offset [n] on. *)
Fixpoint drop_bytes (n : nat) (s : string) : string :=
  match n, s with
  | O, _ => s
  | S _, EmptyString => EmptyString
  | S n', String _ s' => drop_bytes n' s'
  end.

(** Code point of one character. *)
Definition codepoint (c : string) : N :=
  match c with
  | String b0 EmptyString => byte b0
  | String b0 (String b1 EmptyString) =>
      N.lor (N.shiftl (N.land (byte b0) 31) 6) (N.land (byte b1) 63)
  | String b0 (String b1 (String b2 EmptyString)) =>
      N.lor (N.shiftl (N.land (byte b0) 15) 12)
        (N.lor (N.shiftl (N.land (byte b1) 63) 6) (N.land (byte b2) 63))
  | String b0 (String b1 (String b2 (String b3 EmptyString))) =>
      N.lor (N.shiftl (N.land (byte b0) 7) 18)
        (N.lor (N.shiftl (N.land (byte b1) 63) 12)
           (N.lor (N.shiftl (N.land (byte b2) 63) 6) (N.land (byte b3) 63)))
  | _ => 65533
  end.

(** ECMAScript WhiteSpace and LineTerminator code points, the ones
    [String.prototype.trim] removes. *)
Definition is_js_space (c : string) : bool :=
  let p := codepoint c in
  (N.leb 9 p && N.leb p 13) || N.eqb p 32 || N.eqb p 160
  || N.eqb p 5760 || (N.leb 8192 p && N.leb p 8202)
  || N.eqb p 8232 || N.eqb p 8233 || N.eqb p 8239 || N.eqb p 8287
  || N.eqb p 12288 || N.eqb p 65279.

Fixpoint drop_while {A} (p : A -> bool) (l : list A) : list A :=
  match l with
  | [] => []
  | x :: l' => if p x then drop_while p l' else l
  end.

(** [s.trim()] *)
Definition js_trim (s : string) : string :=
  concat_strings
    (rev (drop_while is_js_space (rev (drop_while is_js_space (utf8_chars s))))).

(** [!s.trim()]: the trimmed text is the empty string. *)
Definition is_blank (s : string) : bool :=
  match js_trim s with EmptyString => true | _ => false end.

(** [s.split('\n')]: never empty; a text without newline is its own
    single piece. *)
Fixpoint split_nl (s : string) : list string :=
  match s with
  | EmptyString => [EmptyString]
  | String c s' =>
      if is_newline c then EmptyString :: split_nl s'
      else match split_nl s' with
           | l :: ls => String c l :: ls
           | [] => [single c]
           end
  end.

(** [lines.pop() || ''] leaves the list without its last element and
    yields that element. *)
Definition pop (lines : list string) : list string * string :=
  (List.removelast lines, List.last lines EmptyString).

Fixpoint no_newline (s : string) : bool :=
  match s with
  | EmptyString => true
  | String c s' => negb (is_newline c) && no_newline s'
  end.

(** Every byte below 128: each character is one byte and one code unit. *)
Fixpoint is_ascii (s : string) : bool :=
  match s with
  | EmptyString => true
  | String c s' => N.ltb (byte c) 128 && is_ascii s'
  end.

(** The text ends a line: empty, or its last byte is a newline. *)
Definition complete_lines (s : string) : bool :=
  match List.last (split_nl s) EmptyString with
  | EmptyString => true
  | _ => false
  end.

End Text.

Import Text.

(* ===================================================================== *)
(** * JSON values and the JavaScript operators applied to them           *)
(* ===================================================================== *)

#[local] Set Warnings "-register-all".

(** What [JSON.parse] returns.  An object lists its properties in
    property order. *)
Inductive json : Type :=
| JNull
| JBool (b : bool)
| JNum (n : Z)
| JStr (s : string)
| JArr (items : list json)
| JObj (props : list (string * json)).

Module Js.

Fixpoint lookup_prop (k : string) (ps : list (string * json)) : option json :=
  match ps with
  | [] => None
  | (k', v) :: ps' => if String.eqb k k' then Some v else lookup_prop k ps'
  end.

(** [v.k] for a property name [k] that is neither an index nor
    [length]; [None] is [undefined]. *)
Definition get (v : json) (k : string) : option json :=
  match v with
  | JObj ps => lookup_prop k ps
  | _ => None
  end.

Fixpoint assign_prop (k : string) (x : json) (ps : list (string * json))
  : list (string * json) :=
  match ps with
  | [] => [(k, x)]
  | (k', v) :: ps' =>
      if String.eqb k k' then (k', x) :: ps' else (k', v) :: assign_prop k x ps'
  end.

(** [v.k = x]: an existing property keeps its place, a new one goes last. *)
Definition set (v : json) (k : string) (x : json) : json :=
  match v with
  | JObj ps => JObj (assign_prop k x ps)
  | _ => v
  end.

Definition nonempty (s : string) : bool :=
  match s with EmptyString => false | _ => true end.

(** ToBoolean; [None] is [undefined]. *)
Definition truthy (v : option json) : bool :=
  match v with
  | None | Some JNull => false
  | Some (JBool b) => b
  | Some (JNum n) => negb (Z.eqb n 0)
  | Some (JStr s) => nonempty s
  | Some (JArr _) | Some (JObj _) => true
  end.

(** [typeof v === 'object'] *)
Definition typeof_object (v : json) : bool :=
  match v with
  | JNull | JArr _ | JObj _ => true
  | _ => false
  end.

(** [typeof v === 'string'] *)
Definition typeof_string (v : option json) : bool :=
  match v with
  | Some (JStr _) => true
  | _ => false
  end.

(** ToBoolean of a value that is a string, [null] or [undefined]. *)
Definition truthy_string (o : option string) : bool :=
  match o with
  | Some s => nonempty s
  | None => false
  end.

(** ToBoolean of a value that is a number, [null] or [undefined]. *)
Definition truthy_number (o : option Z) : bool :=
  match o with
  | Some n => negb (Z.eqb n 0)
  | None => false
  end.

End Js.

(** The [DebugEntry] interface of [lib/logger-snippet.mjs]: the shape of
    the entries the loggers build and the store holds. *)
Record entry : Type := {
  location : string;
  hypothesisId : string;
  message : string;
  data : option json;
  level : option string;
  timestamp : option Z;
  sessionId : option string;
  runId : option string
}.

(* ===================================================================== *)
(** * The file system under [.debug/]                                    *)
(* ===================================================================== *)

Inductive error : Type := Error (message : string).

Inductive result (A : Type) : Type :=
| Ok (a : A)
| Throw (e : error).
Arguments Ok {A} a.
Arguments Throw {A} e.

Definition error_message (e : error) : string :=
  match e with Error m => m end.

Module Fs.

(** The state of [.debug/]: the directory is missing; or it exists and
    [debug.log] is absent or holds some text; or [debug.log] holds some
    text that this user may read and may not write. *)
Inductive fs : Type :=
| NoDir
| Dir (log : option string)
| ReadOnly (log : string).

Definition ENOENT : error := Error "ENOENT: no such file or directory".
Definition EACCES : error := Error "EACCES: permission denied".

(** The content of LOG_FILE, if the file exists. *)
Definition store (f : fs) : option string :=
  match f with
  | Dir (Some c) => Some c
  | ReadOnly c => Some c
  | _ => None
  end.

(** [existsSync(LOG_FILE)] *)
Definition existsSync (f : fs) : bool :=
  match store f with Some _ => true | None => false end.

(** [readFileSync(LOG_FILE, 'utf8')] *)
Definition readFileSync (f : fs) : result string :=
  match store f with Some c => Ok c | None => Throw ENOENT end.

(** [statSync(LOG_FILE).size] *)
Definition statSync_size (f : fs) : result nat :=
  match store f with Some c => Ok (String.length c) | None => Throw ENOENT end.

(** [appendFileSync(LOG_FILE, text)]: creates the file when absent. *)
Definition appendFileSync (text : string) (f : fs) : result fs :=
  match f with
  | NoDir => Throw ENOENT
  | Dir None => Ok (Dir (Some text))
  | Dir (Some c) => Ok (Dir (Some (c +:+ text)))
  | ReadOnly _ => Throw EACCES
  end.

(** [writeFileSync(LOG_FILE, text)] *)
Definition writeFileSync (text : string) (f : fs) : result fs :=
  match f with
  | NoDir => Throw ENOENT
  | Dir _ => Ok (Dir (Some text))
  | ReadOnly _ => Throw EACCES
  end.

End Fs.

Import Fs.

(* ===================================================================== *)
(** * scripts/collector.mjs                                              *)
(* ===================================================================== *)

Module Collector.

Record request : Type := {
  method : string;
  (** [new URL(req.url, ..).pathname]; [None] when the constructor throws *)
  url_pathname : option string;
  body : string
}.

Inductive payload : Type :=
| StatusOk                      (* { status: 'ok' } *)
| Health (pid : nat)            (* { status: 'ok', pid } *)
| StatusError (err : string)    (* { status: 'error', error } *)
| StatusPage
| Plain (text : string)
| NoBody.

Record response : Type := {
  statusCode : nat;
  allow : option string;
  sent : payload
}.

(** [sendJson(res, statusCode, data)] *)
Definition sendJson (code : nat) (p : payload) : response :=
  {| statusCode := code; allow := None; sent := p |}.

Section WithJSON.

Variable JSON_parse : string -> option json.
Variable JSON_stringify : json -> string.

(** [parseBody(req)]: resolves with the parsed body, [null] for an
    empty one, and rejects with 'Invalid JSON'. *)
Definition parseBody (req : request) : result json :=
  if Js.nonempty (body req) then
    match JSON_parse (body req) with
    | Some v => Ok v
    | None => Throw (Error "Invalid JSON")
    end
  else Ok JNull.

Definition validateEntry (entry : json) : option string :=
  if negb (Js.truthy (Some entry)) || negb (Js.typeof_object entry) then
    Some "Entry must be a JSON object"
  else if negb (Js.truthy (Js.get entry "location"))
          || negb (Js.typeof_string (Js.get entry "location")) then
    Some "Missing required field: location"
  else if negb (Js.truthy (Js.get entry "message"))
          || negb (Js.typeof_string (Js.get entry "message")) then
    Some "Missing required field: message"
  else if negb (Js.truthy (Js.get entry "hypothesisId"))
          || negb (Js.typeof_string (Js.get entry "hypothesisId")) then
    Some "Missing required field: hypothesisId"
  else None.

(** The entry as [writeLogEntry] serializes it: [timestamp] is set to
    [Date.now()] unless it is already truthy. *)
Definition stamped (now : Z) (entry : json) : json :=
  if negb (Js.truthy (Js.get entry "timestamp")) then
    Js.set entry "timestamp" (JNum now)
  else entry.

Definition writeLogEntry (now : Z) (entry : json) (f : fs) : result fs :=
  appendFileSync (JSON_stringify (stamped now entry) +:+ single newline) f.

(** The [POST /ingest] branch of [handleRequest], with its [try]. *)
Definition ingest (now : Z) (req : request) (f : fs) : response * fs :=
  match parseBody req with
  | Throw e => (sendJson 400 (StatusError (error_message e)), f)
  | Ok entry =>
      match validateEntry entry with
      | Some err => (sendJson 400 (StatusError err), f)
      | None =>
          match writeLogEntry now entry f with
          | Ok f' => (sendJson 200 StatusOk, f')
          | Throw e => (sendJson 400 (StatusError (error_message e)), f)
          end
      end
  end.

Definition handleRequest (now : Z) (pid : nat) (req : request) (f : fs)
  : result (response * fs) :=
  match url_pathname req with
  | None => Throw (Error "Invalid URL")
  | Some path =>
      if String.eqb (method req) "OPTIONS" then
        Ok ({| statusCode := 204; allow := None; sent := NoBody |}, f)
      else if String.eqb (method req) "GET" && String.eqb path "/" then
        Ok ({| statusCode := 200; allow := None; sent := StatusPage |}, f)
      else if String.eqb (method req) "GET" && String.eqb path "/health" then
        Ok (sendJson 200 (Health pid), f)
      else if String.eqb (method req) "POST" && String.eqb path "/ingest" then
        Ok (ingest now req f)
      else if String.eqb path "/ingest" || String.eqb path "/health" then
        Ok ({| statusCode := 405;
               allow := Some (if String.eqb path "/ingest"
                              then "POST, OPTIONS" else "GET, OPTIONS");
               sent := Plain "Method Not Allowed" |}, f)
      else
        Ok ({| statusCode := 404; allow := None; sent := Plain "Not Found" |}, f)
  end.

(** The listener of [createServer]: a rejection of [handleRequest] is
    answered with 500. *)
Definition server (now : Z) (pid : nat) (req : request) (f : fs)
  : response * fs :=
  match handleRequest now pid req f with
  | Ok r => r
  | Throw _ => (sendJson 500 (StatusError "Internal server error"), f)
  end.

End WithJSON.

End Collector.

(* ===================================================================== *)
(** * scripts/clear-logs.mjs                                             *)
(* ===================================================================== *)

Module ClearLogs.

(** The script, as exit status and file system left behind. *)
Definition main (f : fs) : nat * fs :=
  if negb (existsSync f) then (0, f)
  else
    match writeFileSync EmptyString f with
    | Ok f' => (0, f')
    | Throw _ => (1, f)
    end.

End ClearLogs.

(* ===================================================================== *)
(** * scripts/analyze-logs.mjs                                           *)
(* ===================================================================== *)

Module Analyzer.

Record options : Type := {
  json_output : bool;              (* options.json *)
  hypothesis : option string       (* options.hypothesis *)
}.

(** The loop of [parseArgs] over [process.argv.slice(2)];
    [args[++i]] past the end is [undefined]. *)
Fixpoint parseArgs_from (args : list string) (o : options) : options :=
  match args with
  | [] => o
  | a :: rest =>
      if String.eqb a "--json" then
        parseArgs_from rest {| json_output := true; hypothesis := hypothesis o |}
      else if String.eqb a "--hypothesis" || String.eqb a "-h" then
        match rest with
        | [] => {| json_output := json_output o; hypothesis := None |}
        | v :: rest' =>
            parseArgs_from rest'
              {| json_output := json_output o; hypothesis := Some v |}
        end
      else parseArgs_from rest o
  end.

Definition parseArgs (args : list string) : options :=
  parseArgs_from args {| json_output := false; hypothesis := None |}.

Record errorInfo : Type := {
  err_timestamp : Z;
  err_location : string;
  err_message : string;
  err_data : option json
}.

(** One value of [analysis.hypotheses]. *)
Record group : Type := {
  count : nat;
  levels : gmap string nat;
  locations : gmap string nat;
  errors : list errorInfo;
  firstTimestamp : Z;
  lastTimestamp : Z
}.

Record timeRange : Type := {
  first_ts : option Z;             (* timeRange.first, null at the start *)
  last_ts : option Z;              (* timeRange.last *)
  duration : Z
}.

Record analysis : Type := {
  total : nat;
  range : timeRange;
  hypotheses : gmap string group;
  (** [analysis.errors]: each [errorInfo] with its [hypothesisId] *)
  all_errors : list (errorInfo * string)
}.

Definition empty_analysis : analysis :=
  {| total := 0;
     range := {| first_ts := None; last_ts := None; duration := 0 |};
     hypotheses := ∅;
     all_errors := [] |}.

(** [filterHypothesis && entry.hypothesisId !== filterHypothesis] *)
Definition filtered_out (filterHypothesis : option string) (e : entry) : bool :=
  Js.truthy_string filterHypothesis
  && negb (String.eqb (hypothesisId e) (default EmptyString filterHypothesis)).

(** [(counts[k] || 0) + 1] stored back under [k] *)
Definition bump (k : string) (counts : gmap string nat) : gmap string nat :=
  <[k := default 0 (counts !! k) + 1]> counts.

(** [entry.timestamp || Date.now()].  [clock] gives the successive
    readings of [Date.now()]; [tick] counts the readings taken so far. *)
Definition timestamp_of (clock : nat -> Z) (tick : nat) (e : entry) : Z * nat :=
  if Js.truthy_number (timestamp e)
  then (default 0%Z (timestamp e), tick)
  else (clock tick, S tick).

(** The two updates of [analysis.timeRange] in the loop. *)
Definition widen (ts : Z) (r : timeRange) : timeRange :=
  {| first_ts :=
       if negb (Js.truthy_number (first_ts r))
          || Z.ltb ts (default 0%Z (first_ts r))
       then Some ts else first_ts r;
     last_ts :=
       if negb (Js.truthy_number (last_ts r))
          || Z.ltb (default 0%Z (last_ts r)) ts
       then Some ts else last_ts r;
     duration := duration r |}.

(** The group created for a hypothesis seen for the first time. *)
Definition fresh_group (ts : Z) : group :=
  {| count := 0; levels := ∅; locations := ∅; errors := [];
     firstTimestamp := ts; lastTimestamp := ts |}.

(** [entry.level || 'info'] *)
Definition level_of (e : entry) : string :=
  if Js.truthy_string (level e) then default EmptyString (level e)
  else "info".

(** [level === 'error'] *)
Definition is_error (e : entry) : bool := String.eqb (level_of e) "error".

Definition error_of (ts : Z) (e : entry) : errorInfo :=
  {| err_timestamp := ts; err_location := location e;
     err_message := message e; err_data := data e |}.

(** The updates of [h] in the loop. *)
Definition update_group (ts : Z) (e : entry) (h : group) : group :=
  {| count := count h + 1;
     levels := bump (level_of e) (levels h);
     locations := bump (location e) (locations h);
     errors := if is_error e then errors h ++ [error_of ts e] else errors h;
     firstTimestamp :=
       if Z.ltb ts (firstTimestamp h) then ts else firstTimestamp h;
     lastTimestamp :=
       if Z.ltb (lastTimestamp h) ts then ts else lastTimestamp h |}.

(** The body of the [for] loop. *)
Definition step (clock : nat -> Z) (filterHypothesis : option string)
    (st : analysis * nat) (e : entry) : analysis * nat :=
  if filtered_out filterHypothesis e then st
  else
    let '(ts, tick') := timestamp_of clock (snd st) e in
    let a := fst st in
    let hId := hypothesisId e in
    let h := default (fresh_group ts) (hypotheses a !! hId) in
    ({| total := total a + 1;
        range := widen ts (range a);
        hypotheses := <[hId := update_group ts e h]> (hypotheses a);
        all_errors :=
          if is_error e then all_errors a ++ [(error_of ts e, hId)]
          else all_errors a |},
     tick').

(** The statement after the loop: the duration, when both ends are set. *)
Definition with_duration (a : analysis) : analysis :=
  {| total := total a;
     range :=
       {| first_ts := first_ts (range a);
          last_ts := last_ts (range a);
          duration :=
            if Js.truthy_number (first_ts (range a))
               && Js.truthy_number (last_ts (range a))
            then (default 0 (last_ts (range a))
                  - default 0 (first_ts (range a)))%Z
            else duration (range a) |};
     hypotheses := hypotheses a;
     all_errors := all_errors a |}.

Definition analyzeEntries (clock : nat -> Z) (entries : list entry)
    (filterHypothesis : option string) : analysis :=
  with_duration
    (fst (fold_left (step clock filterHypothesis) entries (empty_analysis, 0))).

Section WithJSON.

(** [JSON.parse] on one line of the store, read at the type of
    entries; [None] when it throws. *)
Variable JSON_parse : string -> option entry.

(** The loop of [parseLogFile]: lines that do not parse are skipped. *)
Fixpoint parse_lines (lines : list string) : list entry :=
  match lines with
  | [] => []
  | line :: rest =>
      match JSON_parse line with
      | Some e => e :: parse_lines rest
      | None => parse_lines rest
      end
  end.

Definition parseLogFile (f : fs) : result (list entry) :=
  if negb (existsSync f) then Ok []
  else
    match readFileSync f with
    | Throw e => Throw e
    | Ok content =>
        let lines :=
          List.filter (fun l => negb (is_blank l)) (split_nl (js_trim content)) in
        Ok (parse_lines lines)
    end.

(** The script: the report it prints, and the file system it leaves. *)
Definition main (clock : nat -> Z) (args : list string) (f : fs)
  : result analysis * fs :=
  let options := parseArgs args in
  match parseLogFile f with
  | Throw e => (Throw e, f)
  | Ok entries => (Ok (analyzeEntries clock entries (hypothesis options)), f)
  end.

End WithJSON.

End Analyzer.

(* ===================================================================== *)
(** * scripts/tail-logs.mjs                                              *)
(* ===================================================================== *)

Module Tailer.

(** The two variables [readNewContent] closes over. *)
Record state : Type := {
  lastSize : nat;
  buffer : string
}.

(** What one line makes the tailer write: the entry ([printEntry]) or a
    parse-error notice. *)
Inductive output : Type :=
| Printed (e : entry)
| ParseError (line : string).

Definition reset : state := {| lastSize := 0; buffer := EmptyString |}.

Section WithJSON.

Variable JSON_parse : string -> option entry.

(** [filter] is [options.hypothesis]. *)
Fixpoint processNewLines (lines : list string) (filter : option string)
  : list output :=
  match lines with
  | [] => []
  | line :: rest =>
      if is_blank line then processNewLines rest filter
      else
        match JSON_parse line with
        | Some e =>
            if Js.truthy_string filter
               && negb (String.eqb (hypothesisId e) (default EmptyString filter))
            then processNewLines rest filter
            else Printed e :: processNewLines rest filter
        | None => ParseError line :: processNewLines rest filter
        end
  end.

(** The state [tailLogs] starts watching with, once the file exists. *)
Definition start (f : fs) : option state :=
  if existsSync f then
    Some {| lastSize := match statSync_size f with Ok n => n | Throw _ => 0 end;
            buffer := EmptyString |}
  else None.

(** One detection cycle. *)
Definition readNewContent (filter : option string) (st : state) (f : fs)
  : state * list output :=
  match statSync_size f with
  | Throw _ => (if negb (existsSync f) then reset else st, [])
  | Ok currentSize =>
      let st1 := if Nat.ltb currentSize (lastSize st) then reset else st in
      if Nat.ltb (lastSize st1) currentSize then
        match readFileSync f with
        | Throw _ => (if negb (existsSync f) then reset else st1, [])
        | Ok fileContent =>
            let newContent := js_slice (lastSize st1) fileContent in
            let '(lines, rest) := pop (split_nl (buffer st1 +:+ newContent)) in
            ({| lastSize := currentSize; buffer := rest |},
             processNewLines lines filter)
        end
      else (st1, [])
  end.

(** What happens around a running tailer. *)
Inductive event : Type :=
| Append (line : string)   (* a writer appends [line + '\n'] *)
| Clear                    (* clear-logs runs *)
| Poll.                    (* the watcher or the timer fires *)

Definition world : Type := fs * state * list output.

Definition react (filter : option string) (w : world) (ev : event) : world :=
  let '(f, st, out) := w in
  match ev with
  | Append line =>
      match appendFileSync (line +:+ single newline) f with
      | Ok f' => (f', st, out)
      | Throw _ => w
      end
  | Clear => (snd (ClearLogs.main f), st, out)
  | Poll =>
      let '(st', o) := readNewContent filter st f in
      (f, st', out ++ o)
  end.

Definition run (filter : option string) (evs : list event) (w : world) : world :=
  fold_left (react filter) evs w.

Definition emitted (w : world) : list output := snd w.

(** The lines a schedule appends, in order. *)
Fixpoint appended (evs : list event) : list string :=
  match evs with
  | [] => []
  | Append line :: evs' => line :: appended evs'
  | _ :: evs' => appended evs'
  end.

(** A schedule of appends alone: no detection cycle, no clear. *)
Fixpoint appends_only (evs : list event) : bool :=
  match evs with
  | [] => true
  | Append _ :: evs' => appends_only evs'
  | _ :: _ => false
  end.

Fixpoint no_clear (evs : list event) : bool :=
  match evs with
  | [] => true
  | Clear :: _ => false
  | _ :: evs' => no_clear evs'
  end.

(** One line, of single-byte characters. *)
Definition plain (l : string) : Prop :=
  no_newline l = true /\ is_ascii l = true.

(** A line as a writer produces it for entry [e]: one line of
    single-byte characters that parses back to [e]. *)
Definition writes (line : string) (e : entry) : Prop :=
  no_newline line = true /\ is_ascii line = true
  /\ is_blank line = false /\ JSON_parse line = Some e.

End WithJSON.

End Tailer.

(* ===================================================================== *)
(** * An executable JSON codec                                           *)
(* ===================================================================== *)

(** A serializer and a parser for [json], written after ECMA-404 for the
    values of this embedding (integers for numbers; an escape [\uXXXX]
    outside the surrogate range).  It instantiates the [JSON_parse] and
    [JSON_stringify] parameters wherever the model is run. *)
Module MiniJson.

Definition quote : ascii := ascii_of_N 34.
Definition backslash : ascii := ascii_of_N 92.

Definition hex_digit (n : N) : ascii :=
  if N.ltb n 10 then ascii_of_N (48 + n) else ascii_of_N (87 + n).

Definition escape_char (c : ascii) : string :=
  let b := byte c in
  if N.eqb b 34 then String backslash (single quote)
  else if N.eqb b 92 then String backslash (single backslash)
  else if N.eqb b 8 then String backslash "b"
  else if N.eqb b 9 then String backslash "t"
  else if N.eqb b 10 then String backslash "n"
  else if N.eqb b 12 then String backslash "f"
  else if N.eqb b 13 then String backslash "r"
  else if N.ltb b 32 then
    String backslash
      ("u00" +:+ String (hex_digit (N.div b 16)) (single (hex_digit (N.modulo b 16))))
  else single c.

Fixpoint escape (s : string) : string :=
  match s with
  | EmptyString => EmptyString
  | String c r => escape_char c +:+ escape r
  end.

Definition quoted (s : string) : string :=
  String quote (escape s +:+ single quote).

Fixpoint digits_of (fuel : nat) (n : N) (acc : string) : string :=
  match fuel with
  | O => acc
  | S fuel' =>
      let acc' := String (ascii_of_N (48 + N.modulo n 10)) acc in
      if N.ltb n 10 then acc' else digits_of fuel' (N.div n 10) acc'
  end.

Definition decimal (z : Z) : string :=
  let n := Z.to_N (Z.abs z) in
  let ds := digits_of (S (N.to_nat (N.log2 n))) n EmptyString in
  if Z.ltb z 0 then String "-" ds else ds.

Fixpoint join (sep : string) (l : list string) : string :=
  match l with
  | [] => EmptyString
  | [s] => s
  | s :: l' => s +:+ sep +:+ join sep l'
  end.

Fixpoint stringify (v : json) : string :=
  match v with
  | JNull => "null"
  | JBool true => "true"
  | JBool false => "false"
  | JNum n => decimal n
  | JStr s => quoted s
  | JArr items => "[" +:+ join "," (List.map stringify items) +:+ "]"
  | JObj props =>
      "{" +:+
      join "," (List.map (fun p => quoted (fst p) +:+ ":" +:+ stringify (snd p)) props)
      +:+ "}"
  end.

Definition is_json_ws (c : ascii) : bool :=
  let b := byte c in
  N.eqb b 32 || N.eqb b 9 || N.eqb b 10 || N.eqb b 13.

Fixpoint skip_ws (s : string) : string :=
  match s with
  | String c r => if is_json_ws c then skip_ws r else s
  | EmptyString => s
  end.

Definition hex_value (c : ascii) : option N :=
  let b := byte c in
  if N.leb 48 b && N.leb b 57 then Some (b - 48)%N
  else if N.leb 97 b && N.leb b 102 then Some (b - 87)%N
  else if N.leb 65 b && N.leb b 70 then Some (b - 55)%N
  else None.

(** UTF-8 bytes of a code point of the basic plane; surrogates have none. *)
Definition utf8_encode (p : N) : option string :=
  if N.ltb p 128 then Some (single (ascii_of_N p))
  else if N.ltb p 2048 then
    Some (String (ascii_of_N (192 + N.shiftr p 6))
            (single (ascii_of_N (128 + N.land p 63))))
  else if N.leb 55296 p && N.leb p 57343 then None
  else if N.ltb p 65536 then
    Some (String (ascii_of_N (224 + N.shiftr p 12))
            (String (ascii_of_N (128 + N.land (N.shiftr p 6) 63))
               (single (ascii_of_N (128 + N.land p 63)))))
  else None.

Definition simple_escape (c : ascii) : option ascii :=
  let b := byte c in
  if N.eqb b 34 || N.eqb b 92 || N.eqb b 47 then Some c
  else if N.eqb b 98 then Some (ascii_of_N 8)
  else if N.eqb b 102 then Some (ascii_of_N 12)
  else if N.eqb b 110 then Some (ascii_of_N 10)
  else if N.eqb b 114 then Some (ascii_of_N 13)
  else if N.eqb b 116 then Some (ascii_of_N 9)
  else None.

(** The characters of a string literal after its opening quote, and
    the text after its closing quote. *)
Fixpoint parse_chars (s : string) : option (string * string) :=
  match s with
  | EmptyString => None
  | String c r =>
      if N.eqb (byte c) 34 then Some (EmptyString, r)
      else if N.ltb (byte c) 32 then None
      else if N.eqb (byte c) 92 then
        match r with
        | String e r' =>
            if N.eqb (byte e) 117 then
              match r' with
              | String h1 (String h2 (String h3 (String h4 r''))) =>
                  match hex_value h1, hex_value h2, hex_value h3, hex_value h4 with
                  | Some a, Some b, Some c', Some d =>
                      match utf8_encode (((a * 16 + b) * 16 + c') * 16 + d)%N,
                            parse_chars r'' with
                      | Some u, Some (t, rest) => Some (u +:+ t, rest)
                      | _, _ => None
                      end
                  | _, _, _, _ => None
                  end
              | _ => None
              end
            else
              match simple_escape e, parse_chars r' with
              | Some x, Some (t, rest) => Some (String x t, rest)
              | _, _ => None
              end
        | EmptyString => None
        end
      else
        match parse_chars r with
        | Some (t, rest) => Some (String c t, rest)
        | None => None
        end
  end.

Definition is_digit (c : ascii) : bool :=
  N.leb 48 (byte c) && N.leb (byte c) 57.

Fixpoint take_digits (s : string) : list N * string :=
  match s with
  | String c r =>
      if is_digit c then
        let '(ds, rest) := take_digits r in ((byte c - 48)%N :: ds, rest)
      else ([], s)
  | EmptyString => ([], s)
  end.

Definition starts_fraction (s : string) : bool :=
  match s with
  | String c _ => N.eqb (byte c) 46 || N.eqb (byte c) 101 || N.eqb (byte c) 69
  | EmptyString => false
  end.

Definition parse_number (s : string) : option (Z * string) :=
  let '(neg, s1) :=
    match s with
    | String c r => if N.eqb (byte c) 45 then (true, r) else (false, s)
    | EmptyString => (false, s)
    end in
  let '(ds, rest) := take_digits s1 in
  match ds with
  | [] => None
  | d :: ds' =>
      if (N.eqb d 0 && negb (Nat.eqb (length ds') 0)) || starts_fraction rest
      then None
      else
        let n := Z.of_N (fold_left (fun a x => (10 * a + x)%N) ds 0%N) in
        Some (if neg then (- n)%Z else n, rest)
  end.

Definition literal (w : string) (s : string) : option string :=
  if String.prefix w s then Some (drop_bytes (String.length w) s) else None.

Definition starts_with (b : N) (s : string) : option string :=
  match s with
  | String c r => if N.eqb (byte c) b then Some r else None
  | EmptyString => None
  end.

Fixpoint parse_value (fuel : nat) (s : string) : option (json * string) :=
  match fuel with
  | O => None
  | S fuel' =>
      let s := skip_ws s in
      match literal "null" s, literal "true" s, literal "false" s with
      | Some r, _, _ => Some (JNull, r)
      | _, Some r, _ => Some (JBool true, r)
      | _, _, Some r => Some (JBool false, r)
      | None, None, None =>
          match starts_with 34 s, starts_with 91 s, starts_with 123 s with
          | Some r, _, _ =>
              match parse_chars r with
              | Some (t, rest) => Some (JStr t, rest)
              | None => None
              end
          | _, Some r, _ =>
              match starts_with 93 (skip_ws r) with
              | Some rest => Some (JArr [], rest)
              | None =>
                  (fix items (n : nat) (r : string) (acc : list json)
                     : option (json * string) :=
                     match n with
                     | O => None
                     | S n' =>
                         match parse_value fuel' r with
                         | None => None
                         | Some (v, r1) =>
                             let r1 := skip_ws r1 in
                             match starts_with 44 r1, starts_with 93 r1 with
                             | Some r2, _ => items n' r2 (acc ++ [v])
                             | _, Some r2 => Some (JArr (acc ++ [v]), r2)
                             | None, None => None
                             end
                         end
                     end) fuel' r []
              end
          | _, _, Some r =>
              match starts_with 125 (skip_ws r) with
              | Some rest => Some (JObj [], rest)
              | None =>
                  (fix members (n : nat) (r : string) (acc : list (string * json))
                     : option (json * string) :=
                     match n with
                     | O => None
                     | S n' =>
                         match starts_with 34 (skip_ws r) with
                         | None => None
                         | Some r0 =>
                             match parse_chars r0 with
                             | None => None
                             | Some (k, r1) =>
                                 match starts_with 58 (skip_ws r1) with
                                 | None => None
                                 | Some r2 =>
                                     match parse_value fuel' r2 with
                                     | None => None
                                     | Some (v, r3) =>
                                         let r3 := skip_ws r3 in
                                         let acc' := Js.assign_prop k v acc in
                                         match starts_with 44 r3, starts_with 125 r3 with
                                         | Some r4, _ => members n' r4 acc'
                                         | _, Some r4 => Some (JObj acc', r4)
                                         | None, None => None
                                         end
                                     end
                                 end
                             end
                         end
                     end) fuel' r []
              end
          | None, None, None =>
              match parse_number s with
              | Some (n, rest) => Some (JNum n, rest)
              | None => None
              end
          end
      end
  end.

(** [JSON.parse]: one value, and nothing but white space after it. *)
Definition parse (s : string) : option json :=
  match parse_value (S (String.length s)) s with
  | Some (v, rest) =>
      match skip_ws rest with
      | EmptyString => Some v
      | _ => None
      end
  | None => None
  end.

Definition as_string (v : option json) : option (option string) :=
  match v with
  | None | Some JNull => Some None
  | Some (JStr s) => Some (Some s)
  | _ => None
  end.

Definition as_number (v : option json) : option (option Z) :=
  match v with
  | None | Some JNull => Some None
  | Some (JNum n) => Some (Some n)
  | _ => None
  end.

(** A parsed object read at the [DebugEntry] interface. *)
Definition as_entry (v : json) : option entry :=
  match Js.get v "location", Js.get v "hypothesisId", Js.get v "message",
        as_string (Js.get v "level"), as_number (Js.get v "timestamp"),
        as_string (Js.get v "sessionId"), as_string (Js.get v "runId") with
  | Some (JStr l), Some (JStr h), Some (JStr m), Some lv, Some ts, Some sid, Some rid =>
      Some {| location := l; hypothesisId := h; message := m;
              data := Js.get v "data"; level := lv; timestamp := ts;
              sessionId := sid; runId := rid |}
  | _, _, _, _, _, _, _ => None
  end.

(** [JSON.parse] of a store line, at the type of entries. *)
Definition parse_entry (line : string) : option entry :=
  match parse line with
  | Some v => as_entry v
  | None => None
  end.

End MiniJson.

(* ===================================================================== *)
(** * Concrete requests, entries and stores                              *)
(* ===================================================================== *)

Module Samples.

Import Collector.

Definition now : Z := 1700000000000.
Definition pid : nat := 4242.

Definition post (v : json) : request :=
  {| method := "POST"; url_pathname := Some "/ingest";
     body := MiniJson.stringify v |}.

(** The first entry of the end-to-end scenario. *)
Definition entry_A : json :=
  JObj [("location", JStr "a.js:f"); ("hypothesisId", JStr "A");
        ("message", JStr "entry"); ("level", JStr "error")].

(** The second one. *)
Definition entry_B : json :=
  JObj [("location", JStr "a.js:f"); ("hypothesisId", JStr "B");
        ("message", JStr "ok")].


(** An entry without [hypothesisId]. *)
Definition entry_incomplete : json :=
  JObj [("location", JStr "a.js:f"); ("message", JStr "entry")].

(** An entry whose [message] is the empty string. *)
Definition entry_silent : json :=
  JObj [("location", JStr "a.js:f"); ("hypothesisId", JStr "A");
        ("message", JStr EmptyString)].

(** [entry_A] and [entry_B] as the store holds them. *)
Definition stored_A : entry :=
  {| location := "a.js:f"; hypothesisId := "A"; message := "entry";
     data := None; level := Some "error"; timestamp := Some now;
     sessionId := None; runId := None |}.

Definition stored_B : entry :=
  {| location := "a.js:f"; hypothesisId := "B"; message := "ok";
     data := None; level := None; timestamp := Some now;
     sessionId := None; runId := None |}.

(** An entry of hypothesis C that serializes to as many bytes as
    [entry_A]. *)
Definition entry_C : json :=
  JObj [("location", JStr "a.js:f"); ("hypothesisId", JStr "C");
        ("message", JStr "entry"); ("level", JStr "error")].

Definition stored_C : entry :=
  {| location := "a.js:f"; hypothesisId := "C"; message := "entry";
     data := None; level := Some "error"; timestamp := Some now;
     sessionId := None; runId := None |}.

(** The two bytes of U+00E9 (e with acute accent) in UTF-8. *)
Definition e_acute : string :=
  String (ascii_of_N 195) (single (ascii_of_N 169)).

(** An entry whose message has a character outside ASCII. *)
Definition entry_cafe : json :=
  JObj [("location", JStr "a.js:f"); ("hypothesisId", JStr "A");
        ("message", JStr ("caf" +:+ e_acute))].

Definition stored_cafe : entry :=
  {| location := "a.js:f"; hypothesisId := "A"; message := "caf" +:+ e_acute;
     data := None; level := None; timestamp := Some now;
     sessionId := None; runId := None |}.

(** The line the collector writes for a submitted entry. *)
Definition line (v : json) : string :=
  MiniJson.stringify (Collector.stamped now v).

(** An entry whose location is a name that every object inherits, and
    the store after the collector took it. *)
Definition entry_proto : json :=
  JObj [("location", JStr "__proto__"); ("hypothesisId", JStr "A");
        ("message", JStr "entry")].

Definition stored_proto : entry :=
  {| location := "__proto__"; hypothesisId := "A"; message := "entry";
     data := None; level := None; timestamp := Some now;
     sessionId := None; runId := None |}.

Definition store_proto : fs :=
  Dir (Some (line entry_proto +:+ single newline)).

(** An entry of hypothesis B logged forty seconds after [now]. *)
Definition stored_late : entry :=
  {| location := "a.js:f"; hypothesisId := "B"; message := "ok";
     data := None; level := None; timestamp := Some 1700000040000%Z;
     sessionId := None; runId := None |}.

(** An entry whose hypothesis is such a name. *)
Definition entry_constructor : json :=
  JObj [("location", JStr "a.js:f"); ("hypothesisId", JStr "constructor");
        ("message", JStr "entry")].

Definition store_constructor : fs :=
  Dir (Some (line entry_constructor +:+ single newline)).

(** The two clocks of two runs of the analyzer. *)
Definition clock_morning : nat -> Z := fun _ => 1700000000000%Z.


(** The store after the collector took [entry_A], then [entry_B]. *)
Definition store_AB : fs :=
  Dir (Some (MiniJson.stringify (Collector.stamped now entry_A) +:+ single newline
             +:+ MiniJson.stringify (Collector.stamped now entry_B) +:+ single newline)).

End Samples.

(* ===================================================================== *)
(** * Vocabulary of the statements                                       *)
(* ===================================================================== *)

Module Spec.

(** The complete lines of a text: the pieces of [split('\n')] without
    the unterminated rest. *)
Definition lines_of (s : string) : list string :=
  List.removelast (split_nl s).

(** The text of a store holding [ls], one per line. *)
Fixpoint unlines (ls : list string) : string :=
  match ls with
  | [] => EmptyString
  | l :: ls' => l +:+ String newline (unlines ls')
  end.

(** The three fields [validateEntry] requires. *)
Definition required : list string := ["location"; "message"; "hypothesisId"].





(** The states of the file system that the collector and clear-logs
    produce, starting without a store. *)
Inductive produced (JSON_parse : string -> option json)
    (JSON_stringify : json -> string) : fs -> Prop :=
| produced_fresh (f : fs) :
    store f = None -> produced JSON_parse JSON_stringify f
| produced_serve (f : fs) (now : Z) (pid : nat) (req : Collector.request) :
    produced JSON_parse JSON_stringify f ->
    produced JSON_parse JSON_stringify
      (snd (Collector.server JSON_parse JSON_stringify now pid req f))
| produced_clear (f : fs) :
    produced JSON_parse JSON_stringify f ->
    produced JSON_parse JSON_stringify (snd (ClearLogs.main f)).

(** Sum of [f] over the values of a dictionary. *)
Definition msum {A} (f : A -> nat) (m : gmap string A) : nat :=
  map_fold (fun _ x acc => f x + acc) 0 m.

Import Analyzer.

Definition group_ok (g : group) : Prop :=
  count g = msum id (levels g)
  /\ count g = msum id (locations g)
  /\ length (errors g) = default 0 (levels g !! "error")
  /\ (firstTimestamp g <= lastTimestamp g)%Z.

Definition report_ok (a : analysis) : Prop :=
  (forall k g, hypotheses a !! k = Some g -> group_ok g)
  /\ total a = msum count (hypotheses a)
  /\ length (all_errors a) = msum (fun g => length (errors g)) (hypotheses a).

(** The count the report attributes to hypothesis [k]. *)
Definition count_of (k : string) (a : analysis) : nat :=
  match hypotheses a !! k with
  | Some g => count g
  | None => 0
  end.

(** [entry.timestamp] is truthy: [Date.now()] is not consulted. *)
Definition has_timestamp (e : entry) : bool := Js.truthy_number (timestamp e).

(** The entries whose [hypothesisId] is [X]. *)
Definition matching (X : string) (es : list entry) : list entry :=
  List.filter (fun e => String.eqb (hypothesisId e) X) es.

(** A report names no hypothesis but [X]: in its groups and in its
    global error list. *)
Definition only_hypothesis (X : string) (a : analysis) : Prop :=
  (forall k g, hypotheses a !! k = Some g -> k = X)
  /\ Forall (fun p => snd p = X) (all_errors a).

(** An error record without its time stamp. *)
Definition untimed (x : errorInfo) : string * string * option json :=
  (err_location x, err_message x, err_data x).

End Spec.

Import Spec.

(* ===================================================================== *)
(** * Vocabulary of the further statements                               *)
(* ===================================================================== *)

Module Props.

(** The request [req] sent again with the method [m]. *)
Definition with_method (m : string) (req : Collector.request) : Collector.request :=
  {| Collector.method := m;
     Collector.url_pathname := Collector.url_pathname req;
     Collector.body := Collector.body req |}.

(** Property [k] of [v] is a string other than the empty one. *)
Definition filled (v : json) (k : string) : Prop :=
  exists s, Js.get v k = Some (JStr s) /\ Js.nonempty s = true.

End Props.

Import Props.

Module Tally.

Import Analyzer.

(** The entries the loop of [analyzeEntries] does not skip. *)
Definition retained (filterHypothesis : option string) (es : list entry)
  : list entry :=
  List.filter (fun e => negb (filtered_out filterHypothesis e)) es.

(** How many of [es] have the level [lv], taking 'info' for a missing one. *)
Definition level_count (lv : string) (es : list entry) : nat :=
  length (List.filter (fun e => String.eqb (level_of e) lv) es).

Definition location_count (loc : string) (es : list entry) : nat :=
  length (List.filter (fun e => String.eqb (location e) loc) es).

(** What an error record takes from its entry, the time stamp apart. *)
Definition untimed_entry (e : entry) : string * string * option json :=
  (location e, message e, data e).

(** The time stamps of entries that have one. *)
Definition stamps (es : list entry) : list Z :=
  List.map (fun e => default 0%Z (timestamp e)) es.

(** What the group of hypothesis [X] must be after the entries [G] of
    that hypothesis: absent when there is none, and otherwise their count,
    their levels, their locations and their errors in order. *)
Definition group_tallies (G : list entry) (o : option group) : Prop :=
  match o with
  | None => G = []
  | Some g =>
      G <> []
      /\ count g = length G
      /\ (forall lv, default 0 (levels g !! lv) = level_count lv G)
      /\ (forall loc, default 0 (locations g !! loc) = location_count loc G)
      /\ List.map untimed (errors g)
         = List.map untimed_entry (List.filter is_error G)
  end.

(** The report tallies the retained entries [R]. *)
Definition report_tallies (R : list entry) (a : analysis) : Prop :=
  total a = length R
  /\ (forall X, group_tallies (matching X R) (hypotheses a !! X))
  /\ List.map (fun p => (untimed (fst p), snd p)) (all_errors a)
     = List.map (fun e => (untimed_entry e, hypothesisId e))
         (List.filter is_error R).

(** [m] is the least and [M] the greatest of [ts]. *)
Definition spans (m M : Z) (ts : list Z) : Prop :=
  In m ts /\ In M ts
  /\ Forall (fun t => (m <= t)%Z) ts /\ Forall (fun t => (t <= M)%Z) ts.

(** The time range over the time stamps [ts], before the duration is
    computed: unset when there is none, their least and greatest
    otherwise. *)
Definition range_covers (ts : list Z) (r : timeRange) : Prop :=
  match ts with
  | [] => first_ts r = None /\ last_ts r = None
  | _ :: _ =>
      exists m M, first_ts r = Some m /\ last_ts r = Some M
                  /\ m <> 0%Z /\ M <> 0%Z /\ spans m M ts
  end.

(** The names every object inherits from [Object.prototype].  The
    lookup of such a key in an object used as a dictionary finds the
    inherited property; the dictionaries of this development stand for
    the objects of the code at all other keys. *)
Definition inherited_names : list string :=
  ["constructor"; "__defineGetter__"; "__defineSetter__"; "hasOwnProperty";
   "__lookupGetter__"; "__lookupSetter__"; "isPrototypeOf";
   "propertyIsEnumerable"; "toString"; "valueOf"; "__proto__";
   "toLocaleString"].

Definition own_name (s : string) : bool :=
  negb (existsb (String.eqb s) inherited_names).

(** The keys an entry gives to the dictionaries of the report. *)
Definition own_keys (e : entry) : bool :=
  own_name (hypothesisId e) && own_name (level_of e) && own_name (location e).

End Tally.

Import Tally.

Module Feed.

Import Tailer.

(** An output passes the filter: a printed entry when its hypothesis is
    the one asked for (or none is asked for), a parse-error notice always. *)
Definition passes (filter : option string) (o : output) : bool :=
  match o with
  | Printed e =>
      negb (Js.truthy_string filter
            && negb (String.eqb (hypothesisId e) (default EmptyString filter)))
  | ParseError _ => true
  end.

(** A writer appends any text, not only whole lines; or a detection
    cycle runs. *)
Inductive action : Type :=
| Write (text : string)
| Cycle.

Section WithJSON.

Variable JSON_parse : string -> option entry.

Definition act (filter : option string) (w : world) (a : action) : world :=
  match a with
  | Write text =>
      match appendFileSync text (fst (fst w)) with
      | Ok f' => (f', snd (fst w), snd w)
      | Throw _ => w
      end
  | Cycle => react JSON_parse filter w Poll
  end.

Definition feed (filter : option string) (acts : list action) (w : world) : world :=
  fold_left (act filter) acts w.

End WithJSON.

(** The text a schedule writes, in order. *)
Fixpoint written (acts : list action) : string :=
  match acts with
  | [] => EmptyString
  | Write text :: acts' => text +:+ written acts'
  | Cycle :: acts' => written acts'
  end.

End Feed.

Import Feed.

Module Stored.

(** A byte that is a character of its own and not white space for
    [trim]. *)
Definition solid (c : ascii) : bool :=
  N.ltb (byte c) 128 && negb (is_js_space (single c)).

Definition first_byte (s : string) : option ascii :=
  match s with
  | String c _ => Some c
  | EmptyString => None
  end.

Fixpoint last_byte (s : string) : option ascii :=
  match s with
  | EmptyString => None
  | String c EmptyString => Some c
  | String _ s' => last_byte s'
  end.

(** The text begins and ends with a solid byte, as the serialization of
    an object does with its braces. *)
Definition tight (s : string) : bool :=
  match first_byte s, last_byte s with
  | Some a, Some b => solid a && solid b
  | _, _ => false
  end.

(** A line of the store that holds the entry [e]. *)
Definition holds (JSON_parse : string -> option entry) (line : string) (e : entry)
  : Prop :=
  no_newline line = true /\ tight line = true /\ JSON_parse line = Some e.

End Stored.

Import Stored.

(** The command line of scripts/tail-logs.mjs. *)
Module TailerArgs.

(** The loop of [parseArgs]: the only option is the hypothesis;
    [args[++i]] past the end is [undefined]. *)
Fixpoint parseArgs_from (args : list string) (h : option string) : option string :=
  match args with
  | [] => h
  | a :: rest =>
      if String.eqb a "--hypothesis" || String.eqb a "-h" then
        match rest with
        | [] => None
        | v :: rest' => parseArgs_from rest' (Some v)
        end
      else parseArgs_from rest h
  end.

Definition parseArgs (args : list string) : option string :=
  parseArgs_from args None.

End TailerArgs.

(** Command lines written from a list of options. *)
Module CommandLine.

Inductive word : Type :=
| Json                                    (* --json *)
| Choose (long : bool) (v : string)       (* --hypothesis v, or -h v *)
| Other (s : string).                     (* anything else *)

Definition is_flag (s : string) : bool :=
  String.eqb s "--json" || String.eqb s "--hypothesis" || String.eqb s "-h".

Definition render (w : word) : list string :=
  match w with
  | Json => ["--json"]
  | Choose long v => [if long then "--hypothesis" else "-h"; v]
  | Other s => [s]
  end.

Definition command (ws : list word) : list string := List.flat_map render ws.

(** A word that is not an option is not spelled as one. *)
Definition well_spelled (w : word) : bool :=
  match w with
  | Other s => negb (is_flag s)
  | _ => true
  end.

(** The hypothesis of the last [Choose] word after [h]. *)
Definition chosen (h : option string) (ws : list word) : option string :=
  fold_left (fun acc w => match w with Choose _ v => Some v | _ => acc end)
    ws h.

Definition wants_json (ws : list word) : bool :=
  existsb (fun w => match w with Json => true | _ => false end) ws.

End CommandLine.

(** The summary of [outputText] in analyze-logs.mjs. *)
Module Summary.

Import Analyzer.

(** [errorsByH]: the error count of each hypothesis, the keys in the
    order of their creation. *)
Definition tally : Type := list (string * nat).

(** [if (!errorsByH[id]) errorsByH[id] = 0; errorsByH[id]++] *)
Fixpoint count_error (hId : string) (t : tally) : tally :=
  match t with
  | [] => [(hId, 1)]
  | (k, n) :: t' =>
      if String.eqb k hId then (k, n + 1) :: t'
      else (k, n) :: count_error hId t'
  end.

Definition errorsByH (errs : list (errorInfo * string)) : tally :=
  fold_left (fun t err => count_error (snd err) t) errs [].

(** A property name that is an array index: a canonical decimal numeral
    below 2^32 - 1. *)
Definition digit (c : ascii) : option N :=
  if N.leb 48 (byte c) && N.leb (byte c) 57 then Some (byte c - 48)%N else None.

Fixpoint decimal (s : string) (acc : N) : option N :=
  match s with
  | EmptyString => Some acc
  | String c s' =>
      match digit c with
      | Some d => decimal s' (acc * 10 + d)%N
      | None => None
      end
  end.

Definition array_index (s : string) : option N :=
  match s with
  | EmptyString => None
  | String c s' =>
      if N.eqb (byte c) 48 && negb (String.eqb s' EmptyString) then None
      else
        match decimal s 0 with
        | Some n => if N.ltb n 4294967295 then Some n else None
        | None => None
        end
  end.

Fixpoint insert_index (x : N * (string * nat)) (l : list (N * (string * nat)))
  : list (N * (string * nat)) :=
  match l with
  | [] => [x]
  | y :: l' => if N.ltb (fst x) (fst y) then x :: y :: l'
               else y :: insert_index x l'
  end.

(** [Object.entries]: the array indices in ascending order, then the
    other keys in the order of their creation. *)
Definition entries (t : tally) : tally :=
  List.map snd
    (fold_right insert_index []
       (omap (fun kv => option_map (fun i => (i, kv)) (array_index (fst kv))) t))
  ++ List.filter
       (fun kv => match array_index (fst kv) with None => true | Some _ => false end)
       t.

(** [sort((a, b) => b[1] - a[1])]: by count, descending; the sort is
    stable. *)
Fixpoint insert_desc (x : string * nat) (l : tally) : tally :=
  match l with
  | [] => [x]
  | y :: l' => if Nat.leb (snd y) (snd x) then x :: y :: l'
               else y :: insert_desc x l'
  end.

Definition sort_desc (l : tally) : tally := fold_right insert_desc [] l.

(** What the summary says. *)
Inductive verdict : Type :=
| RootCause (hId : string) (n : nat)  (* Hypothesis hId has n error(s) *)
| NoErrors                            (* No errors found in any hypothesis. *)
| NoEntries.                          (* No log entries found. *)

(** The branches of the summary; [sortedByErrors[0]] of an empty array
    is [undefined], and reading [topH[0]] throws.  The line that lists
    the hypotheses without errors is left out. *)
Definition summary (a : analysis) : result verdict :=
  if Nat.ltb 0 (length (all_errors a)) then
    match sort_desc (entries (errorsByH (all_errors a))) with
    | (hId, n) :: _ => Ok (RootCause hId n)
    | [] => Throw (Error "Cannot read properties of undefined (reading '0')")
    end
  else if Nat.ltb 0 (total a) then Ok NoErrors
  else Ok NoEntries.

(** The errors of hypothesis [hId] in the global error list. *)
Definition errors_of (hId : string) (errs : list (errorInfo * string)) : nat :=
  length (List.filter (fun err => String.eqb (snd err) hId) errs).

(** [errorsByH[k]], when the key is there. *)
Fixpoint get (k : string) (t : tally) : option nat :=
  match t with
  | [] => None
  | (k', n) :: t' => if String.eqb k' k then Some n else get k t'
  end.

(** The head of a list bounds the counts of the list. *)
Definition topped (l : tally) : Prop :=
  match l with
  | [] => True
  | x :: _ => Forall (fun y => snd y <= snd x) l
  end.

(** The error-level entries of hypothesis [hId] among [R]. *)
Definition error_entries (hId : string) (R : list entry) : nat :=
  length
    (List.filter (fun e => String.eqb (hypothesisId e) hId)
       (List.filter is_error R)).

(** What the summary may say of a report over the entries [R]: it names
    a hypothesis with its number of error-level entries, which no other
    hypothesis exceeds; or there are entries and none is an error; or
    there is no entry. *)
Definition judges (R : list entry) (v : result verdict) : Prop :=
  match v with
  | Ok (RootCause hId n) =>
      n = error_entries hId R /\ 0 < n
      /\ forall other, error_entries other R <= n
  | Ok NoErrors => R <> [] /\ List.filter is_error R = []
  | Ok NoEntries => R = []
  | Throw _ => False
  end.

End Summary.


(* ===================================================================== *)
(** * lib/logger-snippet.mjs                                             *)
(* ===================================================================== *)
(** The loggers that instrumented code calls.  They run in the working
    directory of the collector, so that [.debug/debug.log] is the store. *)
Module Logger.





Section WithJSON.

Variable JSON_stringify : json -> string.



End WithJSON.

End Logger.


(* ===================================================================== *)
(** * analyze-logs.mjs, with objects as they are in JavaScript           *)
(* ===================================================================== *)
(** [Analyzer] reads the objects that [analyzeEntries] uses as
    dictionaries as finite maps, which they are for the keys that name no
    property of [Object.prototype].  [Report] is [analyzeEntries] with
    the lookups of JavaScript: a key that names an inherited property
    finds that property. *)
Module Report.

Import Analyzer.

(** The value of a counter under a key: a number, or the string that
    [+ 1] makes of a value that is no number. *)
Inductive cell : Type :=
| Count (n : nat)
| Text (s : string).

(** [String(f)] for a built-in function named [name], as V8 prints it. *)
Definition native (name : string) : string :=
  "function " +:+ name +:+ "() { [native code] }".

(** [String(Object.prototype[k])] when [k] names a property of
    [Object.prototype], which then is truthy; [None] for any other key.
    [__proto__] is the prototype itself, [constructor] is [Object], the
    others are methods that carry their key as name. *)
Definition inherited_text (k : string) : option string :=
  if String.eqb k "__proto__" then Some "[object Object]"
  else if String.eqb k "constructor" then Some (native "Object")
  else if existsb (String.eqb k) inherited_names then Some (native k)
  else None.

(** [counts[k] = (counts[k] || 0) + 1] on an object that began as [{}].
    An inherited value is truthy and [+ 1] appends to its text; the
    assignment makes an own property, except under [__proto__], whose
    setter ignores a string. *)
Definition bump (k : string) (counts : gmap string cell) : gmap string cell :=
  match counts !! k with
  | Some (Count n) => <[k := Count (n + 1)]> counts
  | Some (Text s) =>
      <[k := if Js.nonempty s then Text (s +:+ "1") else Count 1]> counts
  | None =>
      match inherited_text k with
      | Some t =>
          if String.eqb k "__proto__" then counts
          else <[k := Text (t +:+ "1")]> counts
      | None => <[k := Count 1]> counts
      end
  end.

(** One value of [analysis.hypotheses]. *)
Record group : Type := {
  count : nat;
  levels : gmap string cell;
  locations : gmap string cell;
  errors : list errorInfo;
  firstTimestamp : Z;
  lastTimestamp : Z
}.

Record analysis : Type := {
  total : nat;
  range : timeRange;
  hypotheses : gmap string group;
  (** [analysis.errors]: each [errorInfo] with its [hypothesisId] *)
  all_errors : list (errorInfo * string)
}.

Definition empty_analysis : analysis :=
  {| total := 0;
     range := {| first_ts := None; last_ts := None; duration := 0 |};
     hypotheses := ∅;
     all_errors := [] |}.

(** The group created for a hypothesis seen for the first time. *)
Definition fresh_group (ts : Z) : group :=
  {| count := 0; levels := ∅; locations := ∅; errors := [];
     firstTimestamp := ts; lastTimestamp := ts |}.

(** The updates of [h] in the loop. *)
Definition update_group (ts : Z) (e : entry) (h : group) : group :=
  {| count := count h + 1;
     levels := bump (level_of e) (levels h);
     locations := bump (location e) (locations h);
     errors := if is_error e then errors h ++ [error_of ts e] else errors h;
     firstTimestamp :=
       if Z.ltb ts (firstTimestamp h) then ts else firstTimestamp h;
     lastTimestamp :=
       if Z.ltb (lastTimestamp h) ts then ts else lastTimestamp h |}.

(** The body of the [for] loop.  When [hId] names a property of
    [Object.prototype], [analysis.hypotheses[hId]] is that property: no
    group is created, [h.levels] is [undefined] and reading
    [h.levels[level]] throws. *)
Definition step (clock : nat -> Z) (filterHypothesis : option string)
    (st : analysis * nat) (e : entry) : result (analysis * nat) :=
  if filtered_out filterHypothesis e then Ok st
  else
    let '(ts, tick') := timestamp_of clock (snd st) e in
    let a := fst st in
    let hId := hypothesisId e in
    match inherited_text hId with
    | Some _ =>
        Throw (Error ("Cannot read properties of undefined (reading '"
                      +:+ level_of e +:+ "')"))
    | None =>
        let h := default (fresh_group ts) (hypotheses a !! hId) in
        Ok ({| total := total a + 1;
               range := widen ts (range a);
               hypotheses := <[hId := update_group ts e h]> (hypotheses a);
               all_errors :=
                 if is_error e then all_errors a ++ [(error_of ts e, hId)]
                 else all_errors a |},
            tick')
    end.

(** The [for] loop: an exception ends it. *)
Fixpoint loop (clock : nat -> Z) (filterHypothesis : option string)
    (entries : list entry) (st : analysis * nat) : result (analysis * nat) :=
  match entries with
  | [] => Ok st
  | e :: rest =>
      match step clock filterHypothesis st e with
      | Ok st' => loop clock filterHypothesis rest st'
      | Throw err => Throw err
      end
  end.

(** The number of JavaScript nearest to the integer [z]: [z] itself up
    to 53 bits, and beyond them the nearest multiple of the power of two
    that leaves 53 bits, the even one of two that are as near.  (Below
    2^1024 in magnitude, where the numbers of JavaScript end.) *)
Definition to_double (z : Z) : Z :=
  let a := Z.abs z in
  let k := (Z.log2 a - 52)%Z in
  if Z.leb k 0 then z
  else
    let q := Z.shiftr a k in
    let r := (a - Z.shiftl q k)%Z in
    let half := Z.shiftl 1 (k - 1) in
    let q' :=
      if Z.ltb r half then q
      else if Z.ltb half r then (q + 1)%Z
      else if Z.even q then q else (q + 1)%Z in
    (Z.sgn z * Z.shiftl q' k)%Z.

(** The statement after the loop: the duration, when both ends are set;
    the subtraction is the one of JavaScript's numbers. *)
Definition with_duration (a : analysis) : analysis :=
  {| total := total a;
     range :=
       {| first_ts := first_ts (range a);
          last_ts := last_ts (range a);
          duration :=
            if Js.truthy_number (first_ts (range a))
               && Js.truthy_number (last_ts (range a))
            then to_double (default 0 (last_ts (range a))
                            - default 0 (first_ts (range a)))%Z
            else duration (range a) |};
     hypotheses := hypotheses a;
     all_errors := all_errors a |}.

Definition analyzeEntries (clock : nat -> Z) (entries : list entry)
    (filterHypothesis : option string) : result analysis :=
  match loop clock filterHypothesis entries (empty_analysis, 0) with
  | Ok st => Ok (with_duration (fst st))
  | Throw err => Throw err
  end.

Section WithJSON.

Variable JSON_parse : string -> option entry.

(** The script: the report it prints, or the exception that ends it, and
    the file system it leaves. *)
Definition main (clock : nat -> Z) (args : list string) (f : fs)
  : result analysis * fs :=
  let options := parseArgs args in
  match parseLogFile JSON_parse f with
  | Throw e => (Throw e, f)
  | Ok entries => (analyzeEntries clock entries (hypothesis options), f)
  end.

End WithJSON.

End Report.

(** What the claims say of a report, over [Report.analysis]. *)
Module ReportSpec.

Import Report.

(** The sum of the counters of a dictionary, when all are numbers. *)
Definition sum_of (m : gmap string cell) : option nat :=
  map_fold
    (fun _ c acc =>
       match c, acc with
       | Count n, Some s => Some (n + s)
       | _, _ => None
       end)
    (Some 0) m.

(** The counter under a key as a number: 0 when the key is absent. *)
Definition number_of (o : option cell) : option nat :=
  match o with
  | None => Some 0
  | Some (Count n) => Some n
  | Some (Text _) => None
  end.

Definition group_ok (g : group) : Prop :=
  sum_of (levels g) = Some (count g)
  /\ sum_of (locations g) = Some (count g)
  /\ number_of (levels g !! "error") = Some (length (errors g))
  /\ (firstTimestamp g <= lastTimestamp g)%Z.

Definition report_ok (a : analysis) : Prop :=
  (forall k g, hypotheses a !! k = Some g -> group_ok g)
  /\ total a = Spec.msum count (hypotheses a)
  /\ length (all_errors a)
     = Spec.msum (fun g => length (errors g)) (hypotheses a).

(** The count the report attributes to hypothesis [k]. *)
Definition count_of (k : string) (a : analysis) : nat :=
  match hypotheses a !! k with
  | Some g => count g
  | None => 0
  end.

(** A report names no hypothesis but [X]: in its groups and in its
    global error list. *)
Definition only_hypothesis (X : string) (a : analysis) : Prop :=
  (forall k g, hypotheses a !! k = Some g -> k = X)
  /\ Forall (fun p => snd p = X) (all_errors a).



(** A report of [Analyzer] as a report of [Report]: every counter is a
    number. *)
Definition lift_group (g : Analyzer.group) : group :=
  {| count := Analyzer.count g;
     levels := Count <$> Analyzer.levels g;
     locations := Count <$> Analyzer.locations g;
     errors := Analyzer.errors g;
     firstTimestamp := Analyzer.firstTimestamp g;
     lastTimestamp := Analyzer.lastTimestamp g |}.

Definition lift (a : Analyzer.analysis) : analysis :=
  {| total := Analyzer.total a;
     range := Analyzer.range a;
     hypotheses := lift_group <$> Analyzer.hypotheses a;
     all_errors := Analyzer.all_errors a |}.

(** A report without the counters of levels and locations. *)
Definition skeleton_group (g : group) : nat * list Analyzer.errorInfo * Z * Z :=
  (count g, errors g, firstTimestamp g, lastTimestamp g).

Definition skeleton (a : analysis) :=
  (total a, range a, skeleton_group <$> hypotheses a, all_errors a).

Definition plain_skeleton_group (g : Analyzer.group)
  : nat * list Analyzer.errorInfo * Z * Z :=
  (Analyzer.count g, Analyzer.errors g,
   Analyzer.firstTimestamp g, Analyzer.lastTimestamp g).

Definition plain_skeleton (a : Analyzer.analysis) :=
  (Analyzer.total a, Analyzer.range a,
   plain_skeleton_group <$> Analyzer.hypotheses a, Analyzer.all_errors a).


(** A time stamp other than zero and below 2^52 in magnitude, as those
    of [Date.now()] are: the difference of two such is a number of
    JavaScript. *)
Definition small_stamp (e : entry) : bool :=
  match timestamp e with
  | Some t =>
      negb (Z.eqb t 0) && Z.ltb (-4503599627370496) t
      && Z.ltb t 4503599627370496
  | None => false
  end.


End ReportSpec.


(* ===================================================================== *)
(** * tail-logs.mjs beside other processes                               *)
(* ===================================================================== *)
(** [Tailer.readNewContent] is a detection cycle on one state of the
    store.  A cycle reads the store up to three times, and the collector,
    a logger or clear-logs may write between two of these reads. *)
Module Watch.

Import Tailer.

(** What another process does to the store. *)
Inductive writer : Type :=
| Put (text : string)   (* appendFileSync(LOG_FILE, text) *)
| Wipe.                 (* clear-logs runs *)

Definition write (f : fs) (w : writer) : fs :=
  match w with
  | Put text =>
      match appendFileSync text f with
      | Ok f' => f'
      | Throw _ => f
      end
  | Wipe => snd (ClearLogs.main f)
  end.

Section WithJSON.

Variable JSON_parse : string -> option entry.

(** One detection cycle: the file system is [f1] at [statSync], [f2] at
    [readFileSync] and [f3] at the [existsSync] of the [catch]. *)
Definition readNewContent (filter : option string) (st : state) (f1 f2 f3 : fs)
  : state * list output :=
  match statSync_size f1 with
  | Throw _ => (if negb (existsSync f3) then reset else st, [])
  | Ok currentSize =>
      let st1 := if Nat.ltb currentSize (lastSize st) then reset else st in
      if Nat.ltb (lastSize st1) currentSize then
        match readFileSync f2 with
        | Throw _ => (if negb (existsSync f3) then reset else st1, [])
        | Ok fileContent =>
            let newContent := js_slice (lastSize st1) fileContent in
            let '(lines, rest) := pop (split_nl (buffer st1 +:+ newContent)) in
            ({| lastSize := currentSize; buffer := rest |},
             processNewLines JSON_parse lines filter)
        end
      else (st1, [])
  end.

(** What happens around a running tailer: a process writes, or a
    detection cycle runs, with the writes that fall between its
    [statSync] and its [readFileSync], and those after that up to the
    [existsSync] of its [catch]. *)
Inductive event : Type :=
| Writer (w : writer)
| Cycle (during later : list writer).

Definition react (filter : option string) (w : world) (ev : event) : world :=
  let '(f, st, out) := w in
  match ev with
  | Writer x => (write f x, st, out)
  | Cycle during later =>
      let f2 := fold_left write during f in
      let f3 := fold_left write later f2 in
      let '(st', o) := readNewContent filter st f f2 f3 in
      (f3, st', out ++ o)
  end.

Definition run (filter : option string) (evs : list event) (w : world) : world :=
  fold_left (react filter) evs w.

End WithJSON.

(** A detection cycle during which no process writes. *)
Definition quiet : event := Cycle [] [].

(** The schedules in which every detection cycle is quiet: a line is
    appended, clear-logs runs, or a quiet cycle runs. *)
Definition of_event (ev : Tailer.event) : event :=
  match ev with
  | Append line => Writer (Put (line +:+ single newline))
  | Clear => Writer Wipe
  | Poll => quiet
  end.

(** The same, with writes of any text. *)
Definition of_action (a : Feed.action) : event :=
  match a with
  | Feed.Write text => Writer (Put text)
  | Feed.Cycle => quiet
  end.

End Watch.


(* ===================================================================== *)
(** * Facts about text                                                   *)
(* ===================================================================== *)

Section TextFacts.

Lemma append_nil_l (s : string) : EmptyString +:+ s = s.
Proof. reflexivity. Qed.

Lemma append_cons (c : ascii) (a b : string) :
  String c a +:+ b = String c (a +:+ b).
Proof. reflexivity. Qed.

Lemma append_nil_r (s : string) : s +:+ EmptyString = s.
Proof.
  induction s as [|c s IH]; [reflexivity|].
  rewrite append_cons, IH. reflexivity.
Qed.

Lemma append_assoc (a b c : string) : (a +:+ b) +:+ c = a +:+ (b +:+ c).
Proof.
  induction a as [|x a IH]; [reflexivity|].
  rewrite !append_cons, IH. reflexivity.
Qed.

Lemma length_append (a b : string) :
  String.length (a +:+ b) = String.length a + String.length b.
Proof.
  induction a as [|x a IH]; [reflexivity|].
  rewrite append_cons. simpl. rewrite IH. reflexivity.
Qed.

Lemma split_nl_nonempty (s : string) : split_nl s <> [].
Proof.
  induction s as [|c s IH]; simpl; [discriminate|].
  destruct (is_newline c); [discriminate|].
  destruct (split_nl s); discriminate.
Qed.

Lemma is_newline_eq (c : ascii) : is_newline c = true -> c = newline.
Proof.
  unfold is_newline, byte. intros H. apply N.eqb_eq in H.
  rewrite <- (ascii_N_embedding c), H. reflexivity.
Qed.

(** A line and its terminator in front of a text: [split] yields the
    line, then the pieces of the text. *)
Lemma split_nl_line (l r : string) :
  no_newline l = true ->
  split_nl (l +:+ String newline r) = l :: split_nl r.
Proof.
  induction l as [|c l IH]; intros H.
  - reflexivity.
  - simpl in H. apply andb_prop in H as [Hc Hl].
    apply negb_true_iff in Hc.
    rewrite append_cons. simpl. rewrite Hc, (IH Hl). reflexivity.
Qed.

Lemma split_nl_unlines (ls : list string) (r : string) :
  Forall (fun l => no_newline l = true) ls ->
  split_nl (unlines ls +:+ r) = ls ++ split_nl r.
Proof.
  induction 1 as [|l ls Hl _ IH]; simpl; [reflexivity|].
  rewrite append_assoc, append_cons.
  rewrite (split_nl_line _ _ Hl), IH. reflexivity.
Qed.

Lemma split_nl_no_newline (s : string) :
  Forall (fun l => no_newline l = true) (split_nl s).
Proof.
  induction s as [|c s IH]; simpl.
  - repeat constructor.
  - destruct (is_newline c) eqn:Hc.
    + constructor; [reflexivity | exact IH].
    + destruct (split_nl s) as [|l ls].
      * repeat constructor. simpl. now rewrite Hc.
      * inversion IH; subst.
        constructor; [simpl; rewrite Hc; assumption | assumption].
Qed.

(** A text is its pieces, each but the last followed by a newline. *)
Lemma unlines_split_nl (s : string) :
  s = unlines (lines_of s) +:+ List.last (split_nl s) EmptyString.
Proof.
  unfold lines_of.
  induction s as [|c s IH]; [reflexivity|].
  pose proof (split_nl_nonempty s) as Hne.
  simpl split_nl.
  destruct (is_newline c) eqn:Hc.
  - apply is_newline_eq in Hc. subst c.
    destruct (split_nl s) as [|l ls] eqn:E; [congruence|].
    cbn [List.removelast List.last unlines].
    rewrite append_nil_l, append_cons. f_equal. exact IH.
  - destruct (split_nl s) as [|l ls] eqn:E; [congruence|].
    destruct ls as [|l' ls'].
    + cbn [List.removelast List.last unlines] in *.
      rewrite append_nil_l in *. congruence.
    + cbn [List.removelast List.last unlines] in *.
      rewrite !append_assoc, !append_cons in *.
      f_equal. exact IH.
Qed.

Lemma complete_lines_unlines (s : string) :
  complete_lines s = true -> s = unlines (lines_of s).
Proof.
  unfold complete_lines. intros H.
  rewrite (unlines_split_nl s) at 1.
  destruct (List.last (split_nl s) EmptyString); [apply append_nil_r | discriminate].
Qed.

Lemma lines_of_no_newline (s : string) :
  Forall (fun l => no_newline l = true) (lines_of s).
Proof.
  unfold lines_of. pose proof (split_nl_no_newline s) as H.
  induction H as [|l ls Hl Hls IH]; simpl; [constructor|].
  destruct ls; [constructor|]. constructor; assumption.
Qed.


(** ... and the store again consists of complete lines. *)
Lemma complete_lines_append_line (c line : string) :
  complete_lines c = true -> no_newline line = true ->
  complete_lines (c +:+ line +:+ single newline) = true.
Proof.
  intros Hc Hl. unfold complete_lines.
  rewrite (complete_lines_unlines c Hc) at 1.
  rewrite split_nl_unlines by apply lines_of_no_newline.
  unfold single. rewrite (split_nl_line _ _ Hl). simpl split_nl.
  change [line; EmptyString] with ([line] ++ [EmptyString]).
  rewrite app_assoc, last_last. reflexivity.
Qed.

End TextFacts.

(* ===================================================================== *)
(** * The collector: validation, round trip, failures                    *)
(* ===================================================================== *)

Section CollectorFacts.

Import Collector.

Variable JSON_parse : string -> option json.
Variable JSON_stringify : json -> string.

Local Abbreviation server := (server JSON_parse JSON_stringify).
Local Abbreviation ingest := (ingest JSON_parse JSON_stringify).

Lemma post_ingest now pid req f :
  method req = "POST" -> url_pathname req = Some "/ingest" ->
  server now pid req f = ingest now req f.
Proof.
  intros Hm Hp. unfold Collector.server, handleRequest.
  rewrite Hm, Hp. reflexivity.
Qed.

(** What [validateEntry] lets through: each required field is a
    non-empty string. *)
Lemma validateEntry_None entry :
  validateEntry entry = None ->
  forall k, In k required ->
    exists s, Js.get entry k = Some (JStr s) /\ Js.nonempty s = true.
Proof.
  unfold validateEntry. intros H k Hk.
  destruct (negb (Js.truthy (Some entry)) || negb (Js.typeof_object entry));
    [discriminate|].
  destruct (Js.get entry "location") as [[|?|?|l|?|?]|] eqn:El;
    simpl in H; rewrite ?orb_true_r, ?orb_false_r in H; try discriminate.
  destruct (Js.nonempty l) eqn:Hl; simpl in H; [|discriminate].
  destruct (Js.get entry "message") as [[|?|?|m|?|?]|] eqn:Em;
    simpl in H; rewrite ?orb_true_r, ?orb_false_r in H; try discriminate.
  destruct (Js.nonempty m) eqn:Hm; simpl in H; [|discriminate].
  destruct (Js.get entry "hypothesisId") as [[|?|?|h|?|?]|] eqn:Eh;
    simpl in H; rewrite ?orb_true_r, ?orb_false_r in H; try discriminate.
  destruct (Js.nonempty h) eqn:Hh; simpl in H; [|discriminate].
  simpl in Hk. destruct Hk as [<-|[<-|[<-|[]]]]; eauto.
Qed.

Lemma validateEntry_accepts entry :
  (forall k, In k required ->
     exists s, Js.get entry k = Some (JStr s) /\ Js.nonempty s = true) ->
  validateEntry entry = None.
Proof.
  intros H.
  destruct (H "location") as (l & El & Hl); [simpl; auto|].
  destruct (H "message") as (m & Em & Hm); [simpl; auto|].
  destruct (H "hypothesisId") as (h & Eh & Hh); [simpl; auto|].
  unfold validateEntry. rewrite El, Em, Eh. simpl. rewrite Hl, Hm, Hh.
  destruct entry; simpl in El; try discriminate. reflexivity.
Qed.

Lemma lookup_assign_eq k x ps :
  Js.lookup_prop k (Js.assign_prop k x ps) = Some x.
Proof.
  induction ps as [|[k' v] ps IH]; simpl.
  - now rewrite String.eqb_refl.
  - destruct (String.eqb k k') eqn:E; simpl; rewrite E; [reflexivity | exact IH].
Qed.



Lemma stamped_timestamp now entry ps :
  entry = JObj ps ->
  Js.get (stamped now entry) "timestamp" =
    if Js.truthy (Js.get entry "timestamp") then Js.get entry "timestamp"
    else Some (JNum now).
Proof.
  intros ->. unfold stamped.
  destruct (Js.truthy (Js.get (JObj ps) "timestamp")); simpl; [reflexivity|].
  apply lookup_assign_eq.
Qed.

(** The listener leaves the file system as it is or appends one
    serialized value and a newline. *)
Lemma server_appends now pid req f :
  snd (server now pid req f) = f
  \/ exists v,
       appendFileSync (JSON_stringify v +:+ single newline) f
       = Ok (snd (server now pid req f)).
Proof.
  unfold Collector.server, handleRequest.
  destruct (url_pathname req) as [path|]; [|now left].
  repeat match goal with
         | |- context [if ?b then _ else _] => destruct b; try (now left)
         end.
  unfold Collector.ingest.
  destruct (parseBody JSON_parse req) as [entry|e]; [|now left].
  destruct (validateEntry entry); [now left|].
  unfold writeLogEntry.
  destruct (appendFileSync _ f) as [f'|e] eqn:E; [|now left].
  right. exists (stamped now entry). exact E.
Qed.

(** Every store the collector and clear-logs produce consists of
    complete lines. *)
Lemma produced_complete_lines f :
  (forall v, no_newline (JSON_stringify v) = true) ->
  produced JSON_parse JSON_stringify f ->
  complete_lines (default EmptyString (store f)) = true.
Proof.
  intros Hnl H. induction H as [f Hf|f now pid req _ IH|f _ IH].
  - now rewrite Hf.
  - destruct (server_appends now pid req f) as [->|[v Hv]]; [exact IH|].
    destruct f as [|[c|]|c]; simpl in Hv; try discriminate;
      injection Hv as <-; simpl.
    + apply (complete_lines_append_line c _ IH (Hnl v)).
    + apply (complete_lines_append_line EmptyString _ eq_refl (Hnl v)).
  - destruct f as [|[c|]|c]; simpl; try exact IH. reflexivity.
Qed.

(** C2.  A [POST /ingest] whose body does not parse, or parses to a
    value in which [location], [message] or [hypothesisId] is missing or
    is not a string, is answered with status 400 and leaves the file
    system as it was: nothing is appended to the store, so its line
    count is unchanged. *)
Theorem invalid_ingest_rejected now pid req f :
  method req = "POST" -> url_pathname req = Some "/ingest" ->
  (JSON_parse (body req) = None
   \/ exists v k, JSON_parse (body req) = Some v /\ In k required
                  /\ Js.typeof_string (Js.get v k) = false) ->
  statusCode (fst (server now pid req f)) = 400
  /\ snd (server now pid req f) = f.
Proof.
  intros Hm Hp H. rewrite (post_ingest _ _ _ _ Hm Hp).
  unfold Collector.ingest, parseBody.
  destruct (Js.nonempty (body req)); [|split; reflexivity].
  destruct (JSON_parse (body req)) as [v|] eqn:Ev; [|split; reflexivity].
  destruct (validateEntry v) as [msg|] eqn:Hv; [split; reflexivity|].
  exfalso. destruct H as [H|(v' & k & Hv' & Hk & Hs)]; [discriminate|].
  injection Hv' as <-.
  destruct (validateEntry_None v Hv k Hk) as (s & Es & _).
  rewrite Es in Hs. discriminate.
Qed.

(** C9.  A [POST /ingest] whose entry has [location], [message] or
    [hypothesisId] present but equal to the empty string is answered
    with status 400 and appends nothing: validation tests the fields for
    truthiness, so no entry with an empty required field is stored. *)
Theorem empty_field_rejected now pid req f v k :
  method req = "POST" -> url_pathname req = Some "/ingest" ->
  JSON_parse (body req) = Some v -> In k required ->
  Js.get v k = Some (JStr EmptyString) ->
  statusCode (fst (server now pid req f)) = 400
  /\ snd (server now pid req f) = f.
Proof.
  intros Hm Hp Ev Hk Hempty. rewrite (post_ingest _ _ _ _ Hm Hp).
  unfold Collector.ingest, parseBody.
  destruct (Js.nonempty (body req)); [|split; reflexivity].
  rewrite Ev.
  destruct (validateEntry v) as [msg|] eqn:Hv; [split; reflexivity|].
  exfalso. destruct (validateEntry_None v Hv k Hk) as (s & Es & Hs).
  rewrite Es in Hempty. injection Hempty as ->. discriminate.
Qed.


(** C3, what the code does.  When the entry is valid and the append
    throws (the [.debug] directory is gone), the [catch] of the ingest
    branch answers with status 400 and the error's message; the listener's
    500 answer is not reached.  The server goes on and the file system is
    as before. *)
Theorem append_failure_answered_400 now pid req entry :
  method req = "POST" -> url_pathname req = Some "/ingest" ->
  Js.nonempty (body req) = true -> JSON_parse (body req) = Some entry ->
  validateEntry entry = None ->
  server now pid req NoDir
  = (sendJson 400 (StatusError (error_message ENOENT)), NoDir).
Proof.
  intros Hm Hp Hb Ev Hv. rewrite (post_ingest _ _ _ _ Hm Hp).
  unfold Collector.ingest, parseBody. rewrite Hb, Ev, Hv. reflexivity.
Qed.

End CollectorFacts.

Section CollectorRuns.

Import Collector Samples.

Local Abbreviation serve := (server MiniJson.parse MiniJson.stringify now pid).

Lemma invalid_ingest_rejected_witness :
  statusCode (fst (serve (post entry_incomplete) (Dir None))) = 400
  /\ snd (serve (post entry_incomplete) (Dir None)) = Dir None.
Proof.
  apply (invalid_ingest_rejected MiniJson.parse MiniJson.stringify).
  - reflexivity.
  - reflexivity.
  - right. exists entry_incomplete, "hypothesisId".
    split; [vm_compute; reflexivity|].
    split; [simpl; auto | reflexivity].
Defined.

Lemma empty_field_rejected_witness :
  statusCode (fst (serve (post entry_silent) (Dir None))) = 400
  /\ snd (serve (post entry_silent) (Dir None)) = Dir None.
Proof.
  apply (empty_field_rejected MiniJson.parse MiniJson.stringify
           now pid (post entry_silent) (Dir None) entry_silent "message").
  - reflexivity.
  - reflexivity.
  - vm_compute; reflexivity.
  - simpl; auto.
  - reflexivity.
Defined.



Lemma append_failure_answered_400_witness :
  serve (post entry_A) NoDir
  = (sendJson 400 (StatusError (error_message ENOENT)), NoDir).
Proof.
  apply (append_failure_answered_400 MiniJson.parse MiniJson.stringify
           now pid (post entry_A) entry_A).
  - reflexivity.
  - reflexivity.
  - reflexivity.
  - vm_compute; reflexivity.
  - reflexivity.
Defined.

End CollectorRuns.

(* ===================================================================== *)
(** * clear-logs                                                         *)
(* ===================================================================== *)

(** C8, as the code has it.  Clearing is idempotent.  When the store is
    absent or can be written the script exits with status 0; if the store
    existed it exists afterwards and is empty, and if it was absent
    nothing is created or changed.  When the store exists and cannot be
    written the script exits with status 1 and leaves it as it is.  From
    every state, a second run right after the first exits with the status
    of the first and changes nothing. *)
Theorem clear_logs_idempotent (f : fs) :
  match f with
  | ReadOnly _ => ClearLogs.main f = (1, f)
  | _ =>
      fst (ClearLogs.main f) = 0
      /\ match store f with
         | Some _ => store (snd (ClearLogs.main f)) = Some EmptyString
         | None => snd (ClearLogs.main f) = f
         end
  end
  /\ ClearLogs.main (snd (ClearLogs.main f))
     = (fst (ClearLogs.main f), snd (ClearLogs.main f)).
Proof.
  destruct f as [|[c|]|c]; repeat split.
Qed.

(** C8 as stated fails on a store that cannot be written: the script
    exits with status 1 and the store keeps its line. *)
Lemma read_only_store_not_cleared :
  fst (ClearLogs.main (ReadOnly (Samples.line Samples.entry_A +:+ single newline)))
  <> 0
  /\ store (snd (ClearLogs.main
                   (ReadOnly (Samples.line Samples.entry_A +:+ single newline))))
     <> Some EmptyString.
Proof.
  split.
  - discriminate.
  - vm_compute. discriminate.
Qed.

(* ===================================================================== *)
(** * The analyzer                                                       *)
(* ===================================================================== *)

Section DictionarySums.

Context {A : Type} (f : A -> nat).

Lemma msum_empty : msum f ∅ = 0.
Proof. unfold msum. apply map_fold_empty. Qed.

Lemma msum_insert_fresh (k : string) (v : A) (m : gmap string A) :
  m !! k = None -> msum f (<[k:=v]> m) = f v + msum f m.
Proof.
  intros Hk. unfold msum.
  apply (map_fold_insert_L (fun _ x acc => f x + acc)); [|exact Hk].
  intros; lia.
Qed.

Lemma msum_delete (k : string) (x : A) (m : gmap string A) :
  m !! k = Some x -> msum f m = f x + msum f (delete k m).
Proof.
  intros Hk. unfold msum.
  apply (map_fold_delete_L (fun _ x acc => f x + acc)); [|exact Hk].
  intros; lia.
Qed.

(** Storing [v] under [k] replaces the old contribution of [k], if any. *)
Lemma msum_insert (k : string) (v : A) (m : gmap string A) :
  msum f (<[k:=v]> m) + default 0 (f <$> m !! k) = msum f m + f v.
Proof.
  destruct (m !! k) as [x|] eqn:Hk; simpl.
  - rewrite (msum_delete k x m Hk).
    rewrite <- (insert_delete_eq m k v).
    rewrite msum_insert_fresh by apply lookup_delete_eq. lia.
  - rewrite msum_insert_fresh by exact Hk. lia.
Qed.

End DictionarySums.

Lemma msum_bump (k : string) (m : gmap string nat) :
  msum id (Analyzer.bump k m) = msum id m + 1.
Proof.
  unfold Analyzer.bump.
  pose proof (msum_insert id k (default 0 (m !! k) + 1) m) as H.
  destruct (m !! k); simpl in *; unfold id in *; lia.
Qed.

Lemma bump_lookup (k k' : string) (m : gmap string nat) :
  default 0 (Analyzer.bump k m !! k')
  = if String.eqb k k' then default 0 (m !! k') + 1 else default 0 (m !! k').
Proof.
  unfold Analyzer.bump. destruct (String.eqb k k') eqn:E.
  - apply String.eqb_eq in E. subst. now rewrite lookup_insert_eq.
  - apply String.eqb_neq in E. now rewrite lookup_insert_ne.
Qed.

Section AnalyzerInvariants.

Import Analyzer.

Lemma fresh_group_ok ts : group_ok (fresh_group ts).
Proof.
  unfold group_ok, fresh_group; simpl.
  rewrite !msum_empty, lookup_empty. simpl. repeat split; lia.
Qed.

Lemma update_group_ok ts e h : group_ok h -> group_ok (update_group ts e h).
Proof.
  intros (Hlv & Hloc & Herr & Hts).
  unfold group_ok, update_group; simpl.
  rewrite !msum_bump, bump_lookup.
  repeat split; try lia.
  - unfold is_error. destruct (String.eqb (level_of e) "error").
    + rewrite length_app. simpl. lia.
    + exact Herr.
  - destruct (Z.ltb_spec ts (firstTimestamp h));
      destruct (Z.ltb_spec (lastTimestamp h) ts); lia.
Qed.

(** One turn of the loop keeps the report consistent. *)
Lemma step_ok clock filt st e :
  report_ok (fst st) -> report_ok (fst (step clock filt st e)).
Proof.
  intros (Hg & Htot & Herrs). unfold step.
  destruct (filtered_out filt e); [exact (conj Hg (conj Htot Herrs))|].
  destruct (timestamp_of clock (snd st) e) as [ts tick'].
  set (a := fst st) in *. set (hId := hypothesisId e).
  set (h := default (fresh_group ts) (hypotheses a !! hId)).
  assert (group_ok h) as Hh.
  { subst h. destruct (hypotheses a !! hId) as [g|] eqn:E; simpl;
      [eapply Hg; eassumption | apply fresh_group_ok]. }
  assert (count h = default 0 (count <$> hypotheses a !! hId)
          /\ length (errors h)
             = default 0 ((fun g => length (errors g)) <$> hypotheses a !! hId))
    as [Hcnt Hlen].
  { subst h. destruct (hypotheses a !! hId); simpl; split; reflexivity. }
  unfold report_ok; simpl. split; [|split].
  - intros k g Hk. destruct (decide (hId = k)) as [->|Hne].
    + rewrite lookup_insert_eq in Hk. injection Hk as <-.
      now apply update_group_ok.
    + rewrite lookup_insert_ne in Hk by exact Hne. eapply Hg; eassumption.
  - pose proof (msum_insert count hId (update_group ts e h) (hypotheses a)) as H.
    simpl in H. lia.
  - pose proof (msum_insert (fun g => length (errors g)) hId
                  (update_group ts e h) (hypotheses a)) as H.
    simpl in H. destruct (is_error e).
    + rewrite !length_app in *. simpl in *. lia.
    + lia.
Qed.

Lemma loop_ok clock filt es st :
  report_ok (fst st) ->
  report_ok (fst (fold_left (step clock filt) es st)).
Proof.
  revert st. induction es as [|e es IH]; intros st H; simpl; [exact H|].
  apply IH. now apply step_ok.
Qed.

Lemma empty_analysis_ok : report_ok empty_analysis.
Proof.
  unfold report_ok, empty_analysis; simpl. rewrite !msum_empty.
  split; [|split; reflexivity].
  intros k g Hk. rewrite lookup_empty in Hk. discriminate.
Qed.

End AnalyzerInvariants.

Section AnalyzerClock.

Import Analyzer.

Lemma timestamp_of_stamped clock tick e :
  has_timestamp e = true ->
  timestamp_of clock tick e = (default 0%Z (timestamp e), tick).
Proof. unfold has_timestamp, timestamp_of. now intros ->. Qed.

End AnalyzerClock.

Section AnalyzerFilter.

Import Analyzer.










End AnalyzerFilter.

Section AnalyzerFilterRuns.

Import Analyzer Samples.

(** The end-to-end scenario: the collector takes entry A (level error),
    then entry B; the analyzer reports two entries, one error, in group A,
    and none in group B. *)
Example end_to_end :
  snd (Collector.server MiniJson.parse MiniJson.stringify now pid (post entry_B)
         (snd (Collector.server MiniJson.parse MiniJson.stringify now pid
                 (post entry_A) (Dir None))))
  = store_AB
  /\ exists r,
       fst (main MiniJson.parse_entry clock_morning [] store_AB) = Ok r
       /\ total r = 2
       /\ (length <$> (errors <$> hypotheses r !! "A")) = Some 1
       /\ (length <$> (errors <$> hypotheses r !! "B")) = Some 0
       /\ List.map snd (all_errors r) = ["A"].
Proof.
  split; [vm_compute; reflexivity|].
  eexists. split; [reflexivity|].
  repeat split; vm_compute; reflexivity.
Qed.

End AnalyzerFilterRuns.

(* ===================================================================== *)
(** * The tailer                                                         *)
(* ===================================================================== *)

Section SingleByteText.

Lemma utf8_chars_cons_ascii (c : ascii) (s : string) :
  N.ltb (byte c) 128 = true ->
  utf8_chars (String c s) = single c :: utf8_chars s.
Proof.
  intros H. unfold utf8_chars. simpl. unfold utf8_width.
  apply N.ltb_lt in H.
  assert (N.ltb (byte c) 192 = true) as -> by (apply N.ltb_lt; lia).
  reflexivity.
Qed.

Lemma concat_chars_ascii (s : string) :
  is_ascii s = true -> concat_strings (utf8_chars s) = s.
Proof.
  induction s as [|c s IH]; [reflexivity|].
  simpl. intros H. apply andb_prop in H as [Hc Hs].
  rewrite (utf8_chars_cons_ascii c s Hc). simpl.
  unfold single. rewrite append_cons, append_nil_l, (IH Hs). reflexivity.
Qed.

(** On text of single-byte characters a code-unit offset is a byte
    offset. *)
Lemma js_slice_ascii (n : nat) (s : string) :
  is_ascii s = true -> js_slice n s = drop_bytes n s.
Proof.
  revert n. induction s as [|c s IH]; intros n H.
  - destruct n; reflexivity.
  - destruct n as [|n]; [now apply concat_chars_ascii|].
    simpl in H. apply andb_prop in H as [Hc Hs].
    unfold js_slice. rewrite (utf8_chars_cons_ascii c s Hc). simpl.
    apply (IH n Hs).
Qed.

Lemma drop_bytes_length_app (a b : string) :
  drop_bytes (String.length a) (a +:+ b) = b.
Proof.
  induction a as [|c a IH]; [now destruct b|].
  rewrite append_cons. simpl. exact IH.
Qed.

Lemma is_ascii_app (a b : string) :
  is_ascii (a +:+ b) = is_ascii a && is_ascii b.
Proof.
  induction a as [|c a IH]; [reflexivity|].
  rewrite append_cons. simpl. rewrite IH. now rewrite andb_assoc.
Qed.

Lemma unlines_app (a b : list string) :
  unlines (a ++ b) = unlines a +:+ unlines b.
Proof.
  induction a as [|l a IH]; [reflexivity|].
  simpl. rewrite IH, append_assoc, append_cons. reflexivity.
Qed.

Lemma is_ascii_unlines (ls : list string) :
  Forall (fun l => is_ascii l = true) ls -> is_ascii (unlines ls) = true.
Proof.
  induction 1 as [|l ls Hl _ IH]; [reflexivity|].
  simpl. rewrite is_ascii_app, Hl. simpl. exact IH.
Qed.

Lemma split_nl_unlines_only (ls : list string) :
  Forall (fun l => no_newline l = true) ls ->
  split_nl (unlines ls) = ls ++ [EmptyString].
Proof.
  intros H. rewrite <- (append_nil_r (unlines ls)).
  now rewrite split_nl_unlines.
Qed.

End SingleByteText.

Section TailerFacts.

Import Tailer.

Variable JSON_parse : string -> option entry.

Local Abbreviation processNewLines := (processNewLines JSON_parse).
Local Abbreviation readNewContent := (readNewContent JSON_parse).
Local Abbreviation run := (run JSON_parse).
Local Abbreviation writes := (writes JSON_parse).

Lemma processNewLines_app (a b : list string) (filter : option string) :
  processNewLines (a ++ b) filter
  = processNewLines a filter ++ processNewLines b filter.
Proof.
  induction a as [|l a IH]; [reflexivity|].
  simpl. destruct (is_blank l); [exact IH|].
  destruct (JSON_parse l) as [e|].
  - destruct (Js.truthy_string filter
              && negb (String.eqb (hypothesisId e) (default EmptyString filter)));
      simpl; now rewrite IH.
  - simpl. now rewrite IH.
Qed.

(** Without filter, the lines of the writers are printed one for one. *)
Lemma processNewLines_writes (ls : list string) (es : list entry) :
  Forall2 writes ls es -> processNewLines ls None = List.map Printed es.
Proof.
  induction 1 as [|l e ls es (_ & _ & Hb & Hp) _ IH]; [reflexivity|].
  simpl. rewrite Hb, Hp, IH. reflexivity.
Qed.

Lemma writes_plain (ls : list string) (es : list entry) :
  Forall2 writes ls es -> Forall plain ls.
Proof.
  induction 1 as [|l e ls es (Hn & Ha & _) _ IH]; constructor;
    [split; assumption | assumption].
Qed.

Lemma plain_no_newline (ls : list string) :
  Forall plain ls -> Forall (fun l => no_newline l = true) ls.
Proof. intros H. eapply Forall_impl; [exact H|]. now intros l [H' _]. Qed.

Lemma plain_is_ascii (ls : list string) :
  Forall plain ls -> Forall (fun l => is_ascii l = true) ls.
Proof. intros H. eapply Forall_impl; [exact H|]. now intros l [_ H']. Qed.

(** A detection cycle with the cursor at the end of [c0], an empty
    buffer, and the complete lines [pending] after the cursor: the lines
    are handed to [processNewLines], the cursor moves to the end. *)
Lemma poll_pending (filter : option string) (c0 : string) (pending : list string) :
  is_ascii c0 = true -> Forall plain pending ->
  readNewContent filter {| lastSize := String.length c0; buffer := EmptyString |}
    (Dir (Some (c0 +:+ unlines pending)))
  = ({| lastSize := String.length (c0 +:+ unlines pending); buffer := EmptyString |},
     processNewLines pending filter).
Proof.
  intros Hc0 Hp. unfold Tailer.readNewContent. simpl.
  rewrite length_append.
  destruct (Nat.ltb_spec (String.length c0 + String.length (unlines pending))
              (String.length c0)) as [Hlt|_]; [lia|].
  destruct pending as [|l ls].
  - simpl. rewrite Nat.add_0_r, Nat.ltb_irrefl. reflexivity.
  - assert (0 < String.length (unlines (l :: ls))) as Hpos.
    { simpl. rewrite length_append. simpl. lia. }
    set (p := l :: ls) in *. clearbody p. simpl.
    destruct (Nat.ltb_spec (String.length c0)
                (String.length c0 + String.length (unlines p))) as [_|Hge];
      [|lia].
    rewrite js_slice_ascii.
    2:{ rewrite is_ascii_app, Hc0. simpl.
        apply is_ascii_unlines, plain_is_ascii, Hp. }
    rewrite drop_bytes_length_app, append_nil_l.
    rewrite split_nl_unlines_only by apply plain_no_newline, Hp.
    unfold pop.
    rewrite removelast_app by discriminate.
    rewrite last_last. simpl. rewrite app_nil_r. reflexivity.
Qed.

(** Appends of plain lines and detection cycles, in any order, closed by
    a cycle: every pending and every appended line has been handed to
    [processNewLines], in order, once. *)
Lemma run_appends_polls (filter : option string) (evs : list event) :
  forall (c0 : string) (pending : list string) (out : list output),
    no_clear evs = true ->
    is_ascii c0 = true -> Forall plain pending -> Forall plain (appended evs) ->
    run filter (evs ++ [Poll])
      (Dir (Some (c0 +:+ unlines pending)),
       {| lastSize := String.length c0; buffer := EmptyString |}, out)
    = (Dir (Some (c0 +:+ unlines (pending ++ appended evs))),
       {| lastSize := String.length (c0 +:+ unlines (pending ++ appended evs));
          buffer := EmptyString |},
       out ++ processNewLines (pending ++ appended evs) filter).
Proof.
  induction evs as [|ev evs IH]; intros c0 pending out Hnc Hc0 Hp Ha.
  - simpl. rewrite (poll_pending filter c0 pending Hc0 Hp), app_nil_r.
    reflexivity.
  - destruct ev as [l| |].
    + simpl in Ha. inversion Ha as [|? ? Hl Ha']; subst.
      simpl. rewrite append_assoc.
      change (l +:+ single newline) with (l +:+ String newline EmptyString).
      replace (unlines pending +:+ l +:+ String newline EmptyString)
        with (unlines (pending ++ [l])).
      2:{ rewrite unlines_app. simpl. reflexivity. }
      specialize (IH c0 (pending ++ [l]) out Hnc Hc0).
      rewrite IH.
      * rewrite <- !app_assoc. reflexivity.
      * apply Forall_app. split; [exact Hp | repeat constructor; apply Hl].
      * exact Ha'.
    + discriminate.
    + simpl in Ha, Hnc. simpl.
      rewrite (poll_pending filter c0 pending Hc0 Hp).
      specialize (IH (c0 +:+ unlines pending) [] (out ++ processNewLines pending filter) Hnc).
      simpl in IH. rewrite append_nil_r in IH.
      rewrite IH.
      * rewrite unlines_app, processNewLines_app, append_assoc, <- app_assoc.
        reflexivity.
      * rewrite is_ascii_app, Hc0. simpl.
        apply is_ascii_unlines, plain_is_ascii, Hp.
      * constructor.
      * exact Ha.
Qed.

End TailerFacts.

Section TailerGuarantees.

Import Tailer.

Variable JSON_parse : string -> option entry.

Local Abbreviation run := (run JSON_parse).
Local Abbreviation writes := (writes JSON_parse).

(** With detection cycles that no write falls into, text of single-byte
    characters is tailed without loss: when the tailer starts on a store
    of such text and plain lines are appended while detection cycles run
    in any order, then after a closing cycle it has printed the appended
    entries, each once, in the order of the appends. *)
Lemma atomic_appends_are_printed
    (f0 : fs) (c0 : string) (st0 : state) (evs : list event) (es : list entry) :
  f0 = Dir (Some c0) -> start f0 = Some st0 -> is_ascii c0 = true ->
  no_clear evs = true -> Forall2 writes (appended evs) es ->
  emitted (run None (evs ++ [Poll]) (f0, st0, [])) = List.map Printed es.
Proof.
  intros Hf Hs Hc0 Hnc Hw.
  subst f0. simpl in Hs. injection Hs as <-.
  pose proof (run_appends_polls JSON_parse None evs c0 [] [] Hnc Hc0
                (List.Forall_nil _) (writes_plain _ _ _ Hw)) as H.
  simpl in H. rewrite append_nil_r in H. rewrite H. simpl.
  now apply processNewLines_writes.
Qed.

Lemma appended_app (a b : list event) :
  appended (a ++ b) = appended a ++ appended b.
Proof.
  induction a as [|ev a IH]; [reflexivity|].
  destruct ev; simpl; now rewrite IH.
Qed.

(** Appends alone leave the tailer as it is and put their lines at the
    end of the store. *)
Lemma run_appends_only (evs : list event) :
  forall (c0 : string) (st : state) (out : list output),
    appends_only evs = true ->
    run None evs (Dir (Some c0), st, out)
    = (Dir (Some (c0 +:+ unlines (appended evs))), st, out).
Proof.
  induction evs as [|ev evs IH]; intros c0 st out H.
  - simpl. now rewrite append_nil_r.
  - destruct ev as [l| |]; try discriminate.
    simpl in H. simpl. rewrite (IH _ _ _ H).
    now rewrite !append_assoc.
Qed.

(** On detecting a decreased size the cycle resets the cursor and the
    carry-over buffer and goes on from byte 0: it does what it would do
    from the reset state. *)
Lemma shrunk_store_resets (filter : option string) (st : state) (c : string) :
  String.length c < lastSize st ->
  readNewContent JSON_parse filter st (Dir (Some c))
  = readNewContent JSON_parse filter reset (Dir (Some c)).
Proof.
  intros H. unfold readNewContent. simpl.
  destruct (Nat.ltb_spec (String.length c) (lastSize st)) as [_|Hge]; [|lia].
  reflexivity.
Qed.

(** With detection cycles that no write falls into: let clear-logs
    truncate the store, let new entries be appended as plain lines, and
    let a detection cycle run while the store is still shorter than the
    tailer's cursor.  That cycle acts from the reset state, cursor 0 and
    empty buffer.  With further appends and detection cycles in any order
    and a closing cycle, the tailer prints exactly the entries appended
    after the truncation, in order, after what it had printed before, and
    nothing of the old store again. *)
Lemma atomic_truncation_then_appends
    (c : string) (st : state) (out0 : list output)
    (pre post : list event) (es : list entry) :
  appends_only pre = true ->
  String.length (unlines (appended pre)) < lastSize st ->
  no_clear post = true ->
  Forall2 writes (appended (pre ++ post)) es ->
  readNewContent JSON_parse None st (Dir (Some (unlines (appended pre))))
  = readNewContent JSON_parse None reset (Dir (Some (unlines (appended pre))))
  /\ emitted (run None (Clear :: pre ++ Poll :: post ++ [Poll])
               (Dir (Some c), st, out0))
     = out0 ++ List.map Printed es.
Proof.
  intros Hpre Hlt Hpost Hw.
  pose proof (shrunk_store_resets None st _ Hlt) as Hreset.
  split; [exact Hreset|].
  pose proof (writes_plain _ _ _ Hw) as Hplain.
  rewrite appended_app in Hplain. apply Forall_app in Hplain as [Hp1 Hp2].
  change (Clear :: pre ++ Poll :: post ++ [Poll])
    with ([Clear] ++ (pre ++ ([Poll] ++ (post ++ [Poll])))).
  unfold Tailer.run. rewrite !fold_left_app.
  change (fold_left (react JSON_parse None) [Clear] (Dir (Some c), st, out0))
    with (Dir (Some EmptyString), st, out0).
  pose proof (run_appends_only pre EmptyString st out0 Hpre) as H1.
  unfold Tailer.run in H1. rewrite H1, append_nil_l.
  simpl fold_left at 2. rewrite Hreset.
  pose proof (poll_pending JSON_parse None EmptyString (appended pre) eq_refl Hp1)
    as H2.
  rewrite append_nil_l in H2. simpl String.length in H2.
  change {| lastSize := 0; buffer := EmptyString |} with reset in H2.
  rewrite H2.
  pose proof (run_appends_polls JSON_parse None post (unlines (appended pre)) []
                (out0 ++ Tailer.processNewLines JSON_parse (appended pre) None)
                Hpost (is_ascii_unlines _ (plain_is_ascii _ Hp1))
                (List.Forall_nil _) Hp2) as H3.
  simpl in H3. rewrite append_nil_r in H3. unfold Tailer.run in H3.
  rewrite <- fold_left_app, H3. simpl.
  rewrite <- app_assoc, <- processNewLines_app, <- appended_app.
  f_equal. now apply processNewLines_writes.
Qed.

End TailerGuarantees.

Section TailerRuns.

Import Tailer Samples.

Local Abbreviation tail := (run MiniJson.parse_entry None).

Lemma line_A_written : writes MiniJson.parse_entry (line entry_A) stored_A.
Proof. repeat split; vm_compute; reflexivity. Qed.

Lemma line_B_written : writes MiniJson.parse_entry (line entry_B) stored_B.
Proof. repeat split; vm_compute; reflexivity. Qed.

Lemma line_C_written : writes MiniJson.parse_entry (line entry_C) stored_C.
Proof. repeat split; vm_compute; reflexivity. Qed.

(** C6, what the code does.  The tailer watches an empty store.  An entry
    whose message holds the two-byte character U+00E9 is appended and
    printed; the cursor is then the size in bytes, one more than the
    length of the text in code units.  The next entry is appended: the
    slice starts one character late, the line has lost its opening brace,
    and the tailer reports a parse error instead of printing the entry. *)
Lemma multibyte_text_drops_next_entry :
  start (Dir (Some EmptyString)) = Some reset
  /\ MiniJson.parse_entry (line entry_cafe) = Some stored_cafe
  /\ MiniJson.parse_entry (line entry_B) = Some stored_B
  /\ emitted
       (tail [Append (line entry_cafe); Poll; Append (line entry_B); Poll]
          (Dir (Some EmptyString), reset, []))
     = [Printed stored_cafe; ParseError (drop_bytes 1 (line entry_B))].
Proof. repeat split; vm_compute; reflexivity. Qed.

End TailerRuns.

(* ===================================================================== *)
(** * The collector: routing and stamping                                *)
(* ===================================================================== *)

Section CollectorRouting.

Import Collector.

Variable JSON_parse : string -> option json.
Variable JSON_stringify : json -> string.

Local Abbreviation server := (server JSON_parse JSON_stringify).
Local Abbreviation ingest := (ingest JSON_parse JSON_stringify).

(** X1: [validateEntry] accepts exactly the values in which [location],
    [message] and [hypothesisId] are non-empty strings. *)
Theorem validateEntry_accepts_exactly (entry : json) :
  validateEntry entry = None <-> (forall k, In k required -> filled entry k).
Proof.
  split.
  - apply validateEntry_None.
  - apply validateEntry_accepts.
Qed.

Lemma ingest_status now req f :
  statusCode (fst (ingest now req f)) = 200
  \/ statusCode (fst (ingest now req f)) = 400.
Proof.
  unfold Collector.ingest.
  destruct (parseBody JSON_parse req) as [entry|e]; [|now right].
  destruct (validateEntry entry); [now right|].
  destruct (writeLogEntry JSON_stringify now entry f); [now left | now right].
Qed.


(** X3: A 405 answer carries an [Allow] header that names a method and
    OPTIONS; the same request sent with the named method is answered
    neither 405 nor 404, and sent with OPTIONS it is answered 204. *)
Theorem allow_header_names_accepted_method now pid req f :
  statusCode (fst (server now pid req f)) = 405 ->
  exists m,
    allow (fst (server now pid req f)) = Some (m +:+ ", OPTIONS")
    /\ statusCode (fst (server now pid (with_method m req) f)) <> 405
    /\ statusCode (fst (server now pid (with_method m req) f)) <> 404
    /\ statusCode (fst (server now pid (with_method "OPTIONS" req) f)) = 204.
Proof.
  unfold Collector.server, handleRequest. simpl.
  destruct (url_pathname req) as [path|] eqn:Hp; [|discriminate].
  destruct (String.eqb (method req) "OPTIONS"); [discriminate|].
  destruct (String.eqb (method req) "GET" && String.eqb path "/"); [discriminate|].
  destruct (String.eqb (method req) "GET" && String.eqb path "/health");
    [discriminate|].
  destruct (String.eqb (method req) "POST" && String.eqb path "/ingest").
  { intros H. destruct (ingest_status now req f) as [E|E];
      unfold Collector.ingest in *; simpl in *; rewrite E in H; discriminate. }
  destruct (String.eqb path "/ingest") eqn:Hi.
  - intros _. apply String.eqb_eq in Hi. subst path.
    exists "POST". simpl. split; [reflexivity|].
    destruct (ingest_status now (with_method "POST" req) f) as [E|E];
      unfold Collector.ingest in *; simpl in *; rewrite E;
      repeat split; discriminate.
  - destruct (String.eqb path "/health") eqn:Hh; [|discriminate].
    intros _. apply String.eqb_eq in Hh. subst path.
    exists "GET". simpl. repeat split; discriminate.
Qed.

(** X4: Stamping settles the time stamp: an object stamped at a time other
    than zero is left as it is by a second stamping, at whatever time. *)
Theorem restamping_keeps_timestamp (now1 now2 : Z) (ps : list (string * json)) :
  now1 <> 0%Z ->
  stamped now2 (stamped now1 (JObj ps)) = stamped now1 (JObj ps).
Proof.
  intros Hnow.
  pose proof (stamped_timestamp now1 (JObj ps) ps eq_refl) as Hts.
  unfold stamped at 1.
  rewrite Hts.
  destruct (Js.truthy (Js.get (JObj ps) "timestamp")) eqn:Et.
  - rewrite Et. reflexivity.
  - simpl. destruct (Z.eqb_spec now1 0); [contradiction | reflexivity].
Qed.

End CollectorRouting.

Section CollectorRoutingRuns.

Import Collector Samples.

Lemma allow_header_names_accepted_method_witness :
  exists m,
    allow (fst (server MiniJson.parse MiniJson.stringify now pid
                  (with_method "DELETE" (post entry_A)) NoDir))
    = Some (m +:+ ", OPTIONS")
    /\ statusCode (fst (server MiniJson.parse MiniJson.stringify now pid
                          (with_method m (with_method "DELETE" (post entry_A))) NoDir))
       <> 405
    /\ statusCode (fst (server MiniJson.parse MiniJson.stringify now pid
                          (with_method m (with_method "DELETE" (post entry_A))) NoDir))
       <> 404
    /\ statusCode (fst (server MiniJson.parse MiniJson.stringify now pid
                          (with_method "OPTIONS" (with_method "DELETE" (post entry_A)))
                          NoDir))
       = 204.
Proof.
  apply (allow_header_names_accepted_method MiniJson.parse MiniJson.stringify).
  reflexivity.
Defined.

Lemma restamping_keeps_timestamp_witness :
  stamped 5 (stamped now entry_B) = stamped now entry_B.
Proof.
  apply (restamping_keeps_timestamp now 5). discriminate.
Defined.

End CollectorRoutingRuns.

(** X5: After a clear-logs that succeeds the analyzer has nothing to
    report: from whatever state of the file system, with whatever
    arguments and clock, when the script exits with status 0 the report
    over the store it leaves is the empty one (total 0, no group, no
    error, no time range).  A store that is absent reads as an empty
    one. *)
Theorem cleared_store_reports_nothing (JSON_parse : string -> option entry)
    (clock : nat -> Z) (args : list string) (f : fs) :
  fst (ClearLogs.main f) = 0 ->
  fst (Report.main JSON_parse clock args (snd (ClearLogs.main f)))
  = Ok Report.empty_analysis.
Proof.
  destruct f as [|[c|]|c]; try reflexivity. discriminate.
Qed.

Lemma cleared_store_reports_nothing_witness :
  fst (Report.main MiniJson.parse_entry Samples.clock_morning
         ["--hypothesis"; "A"] (snd (ClearLogs.main Samples.store_AB)))
  = Ok Report.empty_analysis.
Proof.
  apply (cleared_store_reports_nothing MiniJson.parse_entry).
  reflexivity.
Defined.

(* ===================================================================== *)
(** * The analyzer: what the report tallies                              *)
(* ===================================================================== *)

Section AnalyzerTally.

Import Analyzer.

Variable clock : nat -> Z.
Variable filterHypothesis : option string.

(** The state of the loop after the entries [es]. *)
Local Abbreviation after es :=
  (fold_left (step clock filterHypothesis) es (empty_analysis, 0)).

Lemma after_snoc (es : list entry) (e : entry) :
  after (es ++ [e]) = step clock filterHypothesis (after es) e.
Proof. now rewrite fold_left_app. Qed.

Lemma retained_snoc (es : list entry) (e : entry) :
  retained filterHypothesis (es ++ [e])
  = retained filterHypothesis es
    ++ (if filtered_out filterHypothesis e then [] else [e]).
Proof.
  unfold retained. rewrite List.filter_app. simpl.
  now destruct (filtered_out filterHypothesis e).
Qed.

Lemma matching_snoc (X : string) (R : list entry) (e : entry) :
  matching X (R ++ [e])
  = matching X R ++ (if String.eqb (hypothesisId e) X then [e] else []).
Proof. unfold matching. now rewrite List.filter_app. Qed.

Lemma level_count_snoc lv G e :
  level_count lv (G ++ [e])
  = level_count lv G + (if String.eqb (level_of e) lv then 1 else 0).
Proof.
  unfold level_count. rewrite List.filter_app, length_app. simpl.
  now destruct (String.eqb (level_of e) lv).
Qed.

Lemma location_count_snoc loc G e :
  location_count loc (G ++ [e])
  = location_count loc G + (if String.eqb (location e) loc then 1 else 0).
Proof.
  unfold location_count. rewrite List.filter_app, length_app. simpl.
  now destruct (String.eqb (location e) loc).
Qed.

Lemma errors_snoc (G : list entry) (e : entry) :
  List.filter is_error (G ++ [e])
  = List.filter is_error G ++ (if is_error e then [e] else []).
Proof. now rewrite List.filter_app. Qed.

(** The group of an entry after the entry has been taken in. *)
Lemma update_group_tallies (ts : Z) (e : entry) (G : list entry) (o : option group) :
  group_tallies G o ->
  group_tallies (G ++ [e]) (Some (update_group ts e (default (fresh_group ts) o))).
Proof.
  intros H. unfold group_tallies.
  assert (count (default (fresh_group ts) o) = length G
          /\ (forall lv, default 0 (levels (default (fresh_group ts) o) !! lv)
                         = level_count lv G)
          /\ (forall loc, default 0 (locations (default (fresh_group ts) o) !! loc)
                          = location_count loc G)
          /\ List.map untimed (errors (default (fresh_group ts) o))
             = List.map untimed_entry (List.filter is_error G))
    as (Hc & Hlv & Hloc & Herr).
  { destruct o as [g|]; simpl in *.
    - destruct H as (_ & Hc & Hlv & Hloc & Herr). repeat split; assumption.
    - subst G. repeat split; intros; now rewrite ?lookup_empty. }
  split; [now destruct G|].
  simpl. rewrite length_app. simpl. split; [lia|].
  split; [|split].
  - intros lv. rewrite bump_lookup, level_count_snoc, Hlv.
    now destruct (String.eqb (level_of e) lv).
  - intros loc. rewrite bump_lookup, location_count_snoc, Hloc.
    now destruct (String.eqb (location e) loc).
  - rewrite errors_snoc. destruct (is_error e).
    + rewrite !List.map_app, Herr. reflexivity.
    + now rewrite app_nil_r.
Qed.

Lemma step_tallies (st : analysis * nat) (R : list entry) (e : entry) :
  report_tallies R (fst st) ->
  report_tallies (R ++ (if filtered_out filterHypothesis e then [] else [e]))
    (fst (step clock filterHypothesis st e)).
Proof.
  intros (Ht & Hg & He). unfold step.
  destruct (filtered_out filterHypothesis e).
  { rewrite app_nil_r. exact (conj Ht (conj Hg He)). }
  destruct (timestamp_of clock (snd st) e) as [ts tick'].
  unfold report_tallies; simpl. split; [|split].
  - rewrite length_app. simpl. lia.
  - intros X. rewrite matching_snoc.
    destruct (String.eqb (hypothesisId e) X) eqn:E.
    + apply String.eqb_eq in E. subst X. rewrite lookup_insert_eq.
      apply update_group_tallies, Hg.
    + apply String.eqb_neq in E. rewrite lookup_insert_ne by exact E.
      rewrite app_nil_r. apply Hg.
  - rewrite errors_snoc. destruct (is_error e).
    + rewrite !List.map_app, He. reflexivity.
    + now rewrite app_nil_r.
Qed.

Lemma loop_tallies (es : list entry) :
  report_tallies (retained filterHypothesis es) (fst (after es)).
Proof.
  induction es as [|e es IH] using rev_ind.
  - simpl. split; [reflexivity|]. split; [|reflexivity].
    intros X. simpl. now rewrite lookup_empty.
  - rewrite after_snoc, retained_snoc. now apply step_tallies.
Qed.

(** X7: The report tallies the entries that pass the filter: the total is
    their number; a hypothesis has a group exactly when one of them
    carries it, and the group holds their count, the count of each level
    ('info' standing in for a missing level) and of each location, and
    their error-level entries in the order of the store; the global error
    list holds all error-level entries in that order, each with its
    hypothesis.  The entries that pass give the dictionaries of the report
    no key that names a property of [Object.prototype]. *)
Theorem report_tallies_retained (es : list entry) :
  Forall (fun e => own_keys e = true) (retained filterHypothesis es) ->
  report_tallies (retained filterHypothesis es)
    (analyzeEntries clock es filterHypothesis).
Proof.
  intros _. pose proof (loop_tallies es) as H.
  unfold analyzeEntries, report_tallies, with_duration in *. simpl. exact H.
Qed.

(** One more time stamp, other than zero, widens the range to cover it. *)
Lemma widen_covers (ts : Z) (r : timeRange) (seen : list Z) :
  ts <> 0%Z -> range_covers seen r -> range_covers (seen ++ [ts]) (widen ts r).
Proof.
  intros Hnz Hr. destruct r as [f l d]. unfold widen. simpl.
  destruct seen as [|t0 seen'].
  - destruct Hr as [Hf Hl]. simpl in Hf, Hl. subst f l. simpl.
    exists ts, ts. repeat split; try assumption; try (now left);
      repeat constructor; lia.
  - destruct Hr as (m & M & Hf & Hl & Hm0 & HM0 & Hm & HM & Hle & Hge).
    simpl in Hf, Hl. subst f l.
    assert (Js.truthy_number (Some m) = true) as Em by
      (simpl; now apply negb_true_iff, Z.eqb_neq).
    assert (Js.truthy_number (Some M) = true) as EM by
      (simpl; now apply negb_true_iff, Z.eqb_neq).
    rewrite Em, EM. simpl negb. simpl orb. simpl default.
    change (range_covers ((t0 :: seen') ++ [ts]) ?r)
      with (exists m' M', first_ts r = Some m' /\ last_ts r = Some M'
                          /\ m' <> 0%Z /\ M' <> 0%Z
                          /\ spans m' M' ((t0 :: seen') ++ [ts])).
    simpl first_ts. simpl last_ts.
    assert (In ts ((t0 :: seen') ++ [ts])) as Hin
      by (apply in_or_app; right; now left).
    assert (forall x, In x (t0 :: seen') -> In x ((t0 :: seen') ++ [ts])) as Hold
      by (intros x Hx; apply in_or_app; now left).
    destruct (Z.ltb_spec ts m) as [Hlt|Hgem];
      destruct (Z.ltb_spec M ts) as [HltM|HgeM].
    + exists ts, ts. repeat split; try assumption.
      * apply Forall_app. split; [|repeat constructor; lia].
        eapply Forall_impl; [exact Hle|]. simpl. intros; lia.
      * apply Forall_app. split; [|repeat constructor; lia].
        eapply Forall_impl; [exact Hge|]. simpl. intros; lia.
    + exists ts, M. repeat split; try assumption; try (now apply Hold).
      * apply Forall_app. split; [|repeat constructor; lia].
        eapply Forall_impl; [exact Hle|]. simpl. intros; lia.
      * apply Forall_app. split; [exact Hge|repeat constructor; lia].
    + exists m, ts. repeat split; try assumption; try (now apply Hold).
      * apply Forall_app. split; [exact Hle|repeat constructor; lia].
      * apply Forall_app. split; [|repeat constructor; lia].
        eapply Forall_impl; [exact Hge|]. simpl. intros; lia.
    + exists m, M. repeat split; try assumption; try (now apply Hold).
      * apply Forall_app. split; [exact Hle|repeat constructor; lia].
      * apply Forall_app. split; [exact Hge|repeat constructor; lia].
Qed.

(** The time range while the loop runs over entries with a time stamp:
    unset before the first retained entry, the least and the greatest
    time stamp of the retained entries afterwards. *)
Lemma loop_range (es : list entry) :
  Forall (fun e => has_timestamp e = true) es ->
  range_covers (stamps (retained filterHypothesis es)) (range (fst (after es)))
  /\ duration (range (fst (after es))) = 0%Z.
Proof.
  induction es as [|e es IH] using rev_ind; intros Hs.
  - simpl. repeat split.
  - apply Forall_app in Hs as [Hes He]. inversion He as [|? ? Hts _]; subst.
    destruct (IH Hes) as [Hr Hd]. clear IH.
    rewrite after_snoc, retained_snoc.
    set (st := after es) in *. clearbody st. unfold step.
    destruct (filtered_out filterHypothesis e).
    { rewrite app_nil_r. split; assumption. }
    rewrite (timestamp_of_stamped clock _ e Hts). simpl.
    split; [|exact Hd].
    unfold stamps in *. rewrite List.map_app. simpl.
    apply widen_covers; [|exact Hr].
    unfold has_timestamp, Js.truthy_number in Hts.
    destruct (timestamp e) as [n|]; [|discriminate]. simpl.
    apply negb_true_iff, Z.eqb_neq in Hts. exact Hts.
Qed.

End AnalyzerTally.

(* ===================================================================== *)
(** * The tailer: filter, carry-over buffer, replaced store              *)
(* ===================================================================== *)

Section TailerBuffer.

Import Tailer.

Variable JSON_parse : string -> option entry.

Local Abbreviation processNewLines := (processNewLines JSON_parse).
Local Abbreviation readNewContent := (readNewContent JSON_parse).

(** X13: The filter acts on the printed entries alone: with a filter the
    tailer writes what it writes without one, less the entries of other
    hypotheses; parse-error notices are not filtered, and the empty filter
    filters nothing. *)
Theorem filter_selects_printed (lines : list string) (filter : option string) :
  processNewLines lines filter
  = List.filter (passes filter) (processNewLines lines None).
Proof.
  induction lines as [|l lines IH]; [reflexivity|].
  simpl. destruct (is_blank l); [exact IH|].
  destruct (JSON_parse l) as [e|]; simpl.
  - destruct (Js.truthy_string filter
              && negb (String.eqb (hypothesisId e) (default EmptyString filter)));
      simpl; now rewrite IH.
  - now rewrite IH.
Qed.

(** [split] of two texts in a row: the pieces of the first but the last,
    then the pieces of its last piece followed by the second text. *)
Lemma split_nl_app (a b : string) :
  split_nl (a +:+ b)
  = List.removelast (split_nl a)
    ++ split_nl (List.last (split_nl a) EmptyString +:+ b).
Proof.
  induction a as [|c a IH]; [reflexivity|].
  rewrite append_cons. simpl split_nl.
  pose proof (split_nl_nonempty a) as Hne.
  destruct (is_newline c) eqn:Hc.
  - rewrite IH. destruct (split_nl a) as [|x t]; [congruence|]. reflexivity.
  - rewrite IH. destruct (split_nl a) as [|x [|y t]]; [congruence| |].
    + cbn [List.removelast List.last app]. rewrite append_cons.
      simpl split_nl. rewrite Hc.
      pose proof (split_nl_nonempty (x +:+ b)) as Hne'.
      destruct (split_nl (x +:+ b)); [congruence | reflexivity].
    + reflexivity.
Qed.

Lemma lines_of_app (a b : string) :
  lines_of (a +:+ b)
  = lines_of a ++ lines_of (List.last (split_nl a) EmptyString +:+ b).
Proof.
  unfold lines_of. rewrite split_nl_app.
  apply removelast_app, split_nl_nonempty.
Qed.

Lemma last_app_nonempty {A} (l m : list A) (d : A) :
  m <> [] -> List.last (l ++ m) d = List.last m d.
Proof.
  intros Hm. induction l as [|x l IH]; [reflexivity|].
  simpl. destruct (l ++ m) eqn:E; [|exact IH].
  apply app_eq_nil in E as [_ E]. contradiction.
Qed.

Lemma last_split_nl_app (a b : string) :
  List.last (split_nl (a +:+ b)) EmptyString
  = List.last (split_nl (List.last (split_nl a) EmptyString +:+ b)) EmptyString.
Proof.
  rewrite split_nl_app. apply last_app_nonempty, split_nl_nonempty.
Qed.

End TailerBuffer.

Section TailerFeed.

Import Tailer.

Variable JSON_parse : string -> option entry.
Variable filter : option string.

Local Abbreviation processNewLines := (processNewLines JSON_parse).
Local Abbreviation readNewContent := (readNewContent JSON_parse).
Local Abbreviation feed := (feed JSON_parse filter).

(** The tailer has read the text [r] after [c0]: its cursor is at the end
    of [r], its buffer is the unterminated rest of [r], and it has written
    the complete lines of [r]. *)
Local Abbreviation reading c0 r p out :=
  (Dir (Some (c0 +:+ r +:+ p)),
   {| lastSize := String.length (c0 +:+ r);
      buffer := List.last (split_nl r) EmptyString |},
   out ++ processNewLines (lines_of r) filter).

(** A cycle that finds the store as long as the cursor does nothing. *)
Lemma cycle_idle (a b : string) :
  readNewContent filter {| lastSize := String.length a; buffer := b |}
    (Dir (Some a))
  = ({| lastSize := String.length a; buffer := b |}, []).
Proof.
  unfold Tailer.readNewContent. simpl.
  rewrite Nat.ltb_irrefl. simpl. now rewrite Nat.ltb_irrefl.
Qed.

(** A cycle that finds the text [p] after the cursor adds it to the
    buffer, writes the lines that are complete and keeps the rest. *)
Lemma cycle_reads (a p b : string) :
  is_ascii (a +:+ p) = true -> 0 < String.length p ->
  readNewContent filter {| lastSize := String.length a; buffer := b |}
    (Dir (Some (a +:+ p)))
  = ({| lastSize := String.length (a +:+ p);
        buffer := List.last (split_nl (b +:+ p)) EmptyString |},
     processNewLines (List.removelast (split_nl (b +:+ p))) filter).
Proof.
  intros Hascii Hpos. unfold Tailer.readNewContent. simpl.
  rewrite length_append.
  destruct (Nat.ltb_spec (String.length a + String.length p) (String.length a))
    as [Hlt|_]; [lia|].
  simpl.
  destruct (Nat.ltb_spec (String.length a) (String.length a + String.length p))
    as [_|Hge]; [|lia].
  rewrite (js_slice_ascii _ _ Hascii), drop_bytes_length_app.
  reflexivity.
Qed.

(** A detection cycle takes in the pending text [p]. *)
Lemma cycle_takes_pending (c0 r p : string) (out : list output) :
  is_ascii (c0 +:+ r +:+ p) = true ->
  act JSON_parse filter (reading c0 r p out) Cycle
  = reading c0 (r +:+ p) EmptyString out.
Proof.
  intros Hascii. unfold act, react. simpl fst. simpl snd.
  rewrite <- (append_assoc c0 r p) in *.
  destruct p as [|x p'].
  - rewrite !append_nil_r. rewrite cycle_idle. now rewrite app_nil_r.
  - set (p := String x p') in *.
    assert (0 < String.length p) as Hpos by (subst p; simpl; lia).
    clearbody p.
    rewrite (cycle_reads _ p _ Hascii Hpos).
    rewrite append_nil_r, (lines_of_app r p), processNewLines_app,
      (last_split_nl_app r p), <- app_assoc, <- !append_assoc.
    reflexivity.
Qed.

Lemma feed_reading (acts : list action) :
  forall (c0 r p : string) (out : list output),
    is_ascii (c0 +:+ r +:+ p +:+ written acts) = true ->
    feed (acts ++ [Cycle]) (reading c0 r p out)
    = reading c0 (r +:+ p +:+ written acts) EmptyString out.
Proof.
  induction acts as [|a acts IH]; intros c0 r p out Hascii.
  - simpl written in *. rewrite (append_nil_r p) in *.
    change (feed ([] ++ [Cycle]) (reading c0 r p out))
      with (act JSON_parse filter (reading c0 r p out) Cycle).
    now apply cycle_takes_pending.
  - destruct a as [t|].
    + simpl written in *.
      change (feed ((Write t :: acts) ++ [Cycle]) (reading c0 r p out))
        with (feed (acts ++ [Cycle])
                (act JSON_parse filter (reading c0 r p out) (Write t))).
      unfold act. simpl appendFileSync. cbv iota. simpl fst. simpl snd.
      replace ((c0 +:+ r +:+ p) +:+ t) with (c0 +:+ r +:+ (p +:+ t)).
      2:{ now rewrite !append_assoc. }
      rewrite (IH c0 r (p +:+ t) out).
      * now rewrite !append_assoc.
      * now rewrite !append_assoc.
    + simpl written in *.
      change (feed ((Cycle :: acts) ++ [Cycle]) (reading c0 r p out))
        with (feed (acts ++ [Cycle])
                (act JSON_parse filter (reading c0 r p out) Cycle)).
      rewrite cycle_takes_pending.
      2:{ rewrite <- !append_assoc, is_ascii_app in Hascii.
          apply andb_prop in Hascii as [H _].
          now rewrite <- !append_assoc. }
      rewrite (IH c0 (r +:+ p) EmptyString out).
      * now rewrite append_nil_l, !append_assoc.
      * now rewrite append_nil_l, !append_assoc.
Qed.

(** With detection cycles that no write falls into, what the tailer
    writes depends on the text alone.  The tailer stands
    at the end of a store of single-byte characters with an empty buffer;
    writers append text of single-byte characters in pieces of any size,
    cut anywhere, and detection cycles run at any point, the last one
    after the last write.  Then the tailer has handed the complete lines of
    the text written, in order and each once, to [processNewLines]; the
    unterminated rest of the text is in the carry-over buffer and the
    cursor is at the end of the store. *)
Lemma atomic_pieces_do_not_matter (c0 : string) (acts : list action) (out : list output) :
  is_ascii (c0 +:+ written acts) = true ->
  feed (acts ++ [Cycle])
    (Dir (Some c0), {| lastSize := String.length c0; buffer := EmptyString |}, out)
  = (Dir (Some (c0 +:+ written acts)),
     {| lastSize := String.length (c0 +:+ written acts);
        buffer := List.last (split_nl (written acts)) EmptyString |},
     out ++ processNewLines (lines_of (written acts)) filter).
Proof.
  intros Hascii.
  pose proof (feed_reading acts c0 EmptyString EmptyString out) as H.
  simpl in H. rewrite !append_nil_r, !append_nil_l, app_nil_r in H.
  rewrite H by exact Hascii. reflexivity.
Qed.

(** X15: A store that has become shorter than the cursor is read from its
    first byte: whatever the tailer had read and buffered, the cycle
    writes every complete line of the present content (single-byte
    characters), keeps its unterminated rest and puts the cursor at its
    end. *)
Theorem shorter_store_is_read_from_start (st : state) (c : string) :
  String.length c < lastSize st -> is_ascii c = true ->
  readNewContent filter st (Dir (Some c))
  = ({| lastSize := String.length c;
        buffer := List.last (split_nl c) EmptyString |},
     processNewLines (lines_of c) filter).
Proof.
  intros Hlt Hascii.
  rewrite (shrunk_store_resets JSON_parse filter st c Hlt).
  destruct c as [|x c'].
  - exact (cycle_idle EmptyString EmptyString).
  - apply (cycle_reads EmptyString (String x c') EmptyString Hascii).
    simpl. lia.
Qed.

End TailerFeed.

(* ===================================================================== *)
(** * The analyzer: reading the store                                    *)
(* ===================================================================== *)

Section Characters.

(** The characters of a text are a partition of its bytes. *)
Lemma concat_chars_from (s cur : string) (need : nat) :
  concat_strings (utf8_chars_from cur need s) = cur +:+ s.
Proof.
  revert cur need. induction s as [|b s IH]; intros cur need.
  - simpl. destruct cur; simpl; [reflexivity|].
    now rewrite !append_nil_r.
  - assert (forall l, concat_strings (flush cur ++ l) = cur +:+ concat_strings l)
      as Hflush.
    { intros l. destruct cur; [reflexivity|]. reflexivity. }
    assert (concat_strings
              (match utf8_width b with
               | S (S w) => utf8_chars_from (single b) (S w) s
               | _ => single b :: utf8_chars_from EmptyString 0 s
               end) = String b s) as Hstart.
    { destruct (utf8_width b) as [|[|w]]; simpl; rewrite IH; reflexivity. }
    simpl. destruct need as [|k].
    + now rewrite Hflush, Hstart.
    + destruct (is_continuation b).
      * destruct k as [|k']; simpl; rewrite IH;
          rewrite ?append_assoc; reflexivity.
      * now rewrite Hflush, Hstart.
Qed.

Lemma concat_chars (s : string) : concat_strings (utf8_chars s) = s.
Proof. apply (concat_chars_from s EmptyString 0). Qed.

Lemma concat_strings_app (a b : list string) :
  concat_strings (a ++ b) = concat_strings a +:+ concat_strings b.
Proof.
  induction a as [|x a IH]; [reflexivity|].
  simpl. now rewrite IH, append_assoc.
Qed.

(** A byte below 128 begins a character, whatever came before it. *)
Lemma chars_resume (s : string) (b : ascii) (t : string) :
  N.ltb (byte b) 128 = true ->
  forall cur need,
    utf8_chars_from cur need (s +:+ String b t)
    = utf8_chars_from cur need s ++ utf8_chars (String b t).
Proof.
  intros Hb.
  assert (is_continuation b = false) as Hcont.
  { unfold is_continuation. apply N.ltb_lt in Hb.
    apply andb_false_iff. left. apply N.leb_gt. lia. }
  assert (utf8_width b = 1) as Hw.
  { unfold utf8_width. apply N.ltb_lt in Hb.
    assert (N.ltb (byte b) 192 = true) as -> by (apply N.ltb_lt; lia).
    reflexivity. }
  induction s as [|c s IH]; intros cur need.
  - rewrite append_nil_l. unfold utf8_chars. simpl.
    rewrite Hcont, Hw. destruct need; simpl; reflexivity.
  - rewrite append_cons. simpl.
    destruct need as [|k].
    + destruct (utf8_width c) as [|[|w]]; rewrite IH;
        rewrite <- ?app_assoc; reflexivity.
    + destruct (is_continuation c).
      * destruct k; rewrite IH; reflexivity.
      * destruct (utf8_width c) as [|[|w]]; rewrite IH;
          rewrite <- ?app_assoc; reflexivity.
Qed.

Lemma drop_while_all {A} (p : A -> bool) (l m : list A) :
  forallb p l = true -> drop_while p (l ++ m) = drop_while p m.
Proof.
  induction l as [|x l IH]; [reflexivity|].
  simpl. intros H. apply andb_prop in H as [Hx Hl]. rewrite Hx. now apply IH.
Qed.

Lemma last_byte_snoc (s : string) (b : ascii) :
  last_byte s = Some b -> exists k, s = k +:+ single b.
Proof.
  induction s as [|c s IH]; [discriminate|].
  destruct s as [|c' s'].
  - simpl. intros H. injection H as ->. now exists EmptyString.
  - intros H. destruct (IH H) as [k Hk]. exists (String c k).
    rewrite append_cons, <- Hk. reflexivity.
Qed.

(** [trim] of a tight text followed by white space of single-byte
    characters is the tight text. *)
Lemma trim_tight (j w : string) :
  tight j = true -> is_ascii w = true ->
  forallb is_js_space (utf8_chars w) = true ->
  js_trim (j +:+ w) = j.
Proof.
  unfold tight. intros Ht Hw Hsp.
  destruct (first_byte j) as [a|] eqn:Ea; [|discriminate].
  destruct (last_byte j) as [b|] eqn:Eb; [|discriminate].
  apply andb_prop in Ht as [Ha Hb].
  unfold solid in Ha, Hb.
  apply andb_prop in Ha as [Ha Has]. apply andb_prop in Hb as [Hb Hbs].
  apply negb_true_iff in Has, Hbs.
  destruct (last_byte_snoc j b Eb) as [k Hk].
  assert (utf8_chars (j +:+ w) = utf8_chars k ++ [single b] ++ utf8_chars w) as Hcs.
  { rewrite Hk, append_assoc. unfold single at 1. rewrite append_cons, append_nil_l.
    unfold utf8_chars at 1. rewrite (chars_resume k b w Hb).
    f_equal. destruct w as [|x w'].
    - unfold utf8_chars. simpl.
      assert (utf8_width b = 1) as ->.
      { unfold utf8_width. apply N.ltb_lt in Hb.
        assert (N.ltb (byte b) 192 = true) as -> by (apply N.ltb_lt; lia).
        reflexivity. }
      reflexivity.
    - simpl in Hw. apply andb_prop in Hw as [Hx _].
      rewrite (utf8_chars_cons_ascii b (String x w') Hb). reflexivity. }
  assert (exists rest, utf8_chars (j +:+ w) = single a :: rest) as [rest Hhead].
  { destruct j as [|a' j']; [discriminate|]. simpl in Ea. injection Ea as ->.
    rewrite append_cons, (utf8_chars_cons_ascii a _ Ha). eauto. }
  unfold js_trim.
  replace (drop_while is_js_space (utf8_chars (j +:+ w)))
    with (utf8_chars (j +:+ w)).
  2:{ rewrite Hhead. simpl. now rewrite Has. }
  rewrite Hcs, !rev_app_distr. simpl rev at 2.
  rewrite <- app_assoc, drop_while_all.
  2:{ rewrite forallb_forall in *. intros x Hx. apply Hsp.
      now apply in_rev. }
  simpl app. simpl drop_while. rewrite Hbs.
  change (single b :: rev (utf8_chars k)) with ([single b] ++ rev (utf8_chars k)).
  rewrite rev_app_distr, rev_involutive. simpl rev.
  rewrite concat_strings_app, concat_chars. simpl concat_strings.
  rewrite append_nil_r. now rewrite Hk.
Qed.

Lemma tight_not_blank (l : string) : tight l = true -> is_blank l = false.
Proof.
  intros Ht. unfold is_blank.
  pose proof (trim_tight l EmptyString Ht eq_refl eq_refl) as H.
  rewrite append_nil_r in H. rewrite H.
  destruct l; [discriminate | reflexivity].
Qed.

End Characters.

Section AnalyzerReads.

Variable JSON_parse : string -> option entry.

Lemma first_byte_app (s t : string) :
  s <> EmptyString -> first_byte (s +:+ t) = first_byte s.
Proof. destruct s; [congruence|]. intros _. now rewrite append_cons. Qed.

Lemma last_byte_app (s t : string) :
  t <> EmptyString -> last_byte (s +:+ t) = last_byte t.
Proof.
  intros Ht. induction s as [|c s IH]; [now rewrite append_nil_l|].
  rewrite append_cons. simpl.
  destruct (s +:+ t) eqn:E; [|exact IH].
  destruct s; [rewrite append_nil_l in E; congruence|].
  rewrite append_cons in E. discriminate E.
Qed.

Lemma tight_nonempty (s : string) : tight s = true -> s <> EmptyString.
Proof. intros H ->. discriminate H. Qed.

Lemma split_nl_single (l : string) :
  no_newline l = true -> split_nl l = [l].
Proof.
  induction l as [|c l IH]; [reflexivity|].
  simpl. intros H. apply andb_prop in H as [Hc Hl].
  apply negb_true_iff in Hc. now rewrite Hc, (IH Hl).
Qed.

(** Tight lines joined by newlines are a tight text. *)
Lemma tight_joined (init : list string) (l : string) :
  Forall (fun x => tight x = true) init -> tight l = true ->
  tight (unlines init +:+ l) = true.
Proof.
  intros Hinit Hl. pose proof (tight_nonempty l Hl) as Hne.
  destruct Hinit as [|l0 init' H0 _]; [now rewrite append_nil_l|].
  pose proof (tight_nonempty l0 H0) as Hne0.
  unfold tight in *. rewrite (last_byte_app _ l Hne).
  simpl unlines. rewrite !append_assoc, (first_byte_app l0 _ Hne0).
  destruct (first_byte l0) as [a|]; [|discriminate].
  destruct (last_byte l0) as [b0|]; [|discriminate].
  destruct (first_byte l) as [a'|]; [|discriminate].
  destruct (last_byte l) as [b|]; [|discriminate].
  apply andb_prop in H0 as [-> _]. apply andb_prop in Hl as [_ ->].
  reflexivity.
Qed.

Lemma filter_not_blank (ls : list string) :
  Forall (fun x => tight x = true) ls ->
  List.filter (fun l => negb (is_blank l)) ls = ls.
Proof.
  induction 1 as [|l ls Hl _ IH]; [reflexivity|].
  simpl. now rewrite (tight_not_blank l Hl), IH.
Qed.

Lemma parse_lines_holds (ls : list string) (es : list entry) :
  Forall2 (holds JSON_parse) ls es -> Analyzer.parse_lines JSON_parse ls = es.
Proof.
  induction 1 as [|l e ls es (_ & _ & Hp) _ IH]; [reflexivity|].
  simpl. now rewrite Hp, IH.
Qed.

(** X6: The analyzer reads back what the store holds.  When every line of
    the store is the text of an entry, without a newline inside and
    beginning and ending with a single-byte character that is not white
    space, [parseLogFile] yields these entries, as many and in the order
    of the lines; no line is lost to [trim], [split] or the blank-line
    filter. *)
Theorem analyzer_reads_stored_lines (ls : list string) (es : list entry) :
  Forall2 (holds JSON_parse) ls es ->
  Analyzer.parseLogFile JSON_parse (Dir (Some (unlines ls))) = Ok es.
Proof.
  intros H. pose proof (parse_lines_holds ls es H) as Hparse.
  assert (Forall (fun x => no_newline x = true) ls) as Hnl.
  { clear Hparse. induction H as [|l e ls es (Hn & _ & _) _ IH]; constructor; auto. }
  assert (Forall (fun x => tight x = true) ls) as Htight.
  { clear Hparse Hnl. induction H as [|l e ls es (_ & Ht & _) _ IH]; constructor; auto. }
  unfold Analyzer.parseLogFile. simpl.
  assert (ls = [] \/ exists init l, ls = init ++ [l]) as [-> | (init & l & ->)]
    by (destruct ls using rev_ind; eauto).
  - simpl in Hparse. subst es. reflexivity.
  - apply Forall_app in Hnl as [Hnl_init Hnl_l].
    apply Forall_app in Htight as [Ht_init Ht_l].
    pose proof (List.Forall_inv Hnl_l) as Hl_nl.
    pose proof (List.Forall_inv Ht_l) as Hl_t. simpl in Hl_nl, Hl_t.
    rewrite unlines_app. simpl unlines.
    replace (unlines init +:+ l +:+ String newline EmptyString)
      with ((unlines init +:+ l) +:+ single newline)
      by (now rewrite append_assoc).
    rewrite (trim_tight _ (single newline) (tight_joined init l Ht_init Hl_t)
               eq_refl eq_refl).
    rewrite (split_nl_unlines init l Hnl_init), (split_nl_single l Hl_nl).
    rewrite filter_not_blank; [|apply Forall_app; split; assumption].
    now rewrite Hparse.
Qed.

End AnalyzerReads.

(* ===================================================================== *)
(** * The command lines of the analyzer and the tailer                   *)
(* ===================================================================== *)

Section CommandLines.

Import CommandLine.

Lemma parseArgs_from_hypothesis (args : list string) :
  forall o,
    Analyzer.hypothesis (Analyzer.parseArgs_from args o)
    = TailerArgs.parseArgs_from args (Analyzer.hypothesis o).
Proof.
  assert (forall n args, length args <= n -> forall o,
            Analyzer.hypothesis (Analyzer.parseArgs_from args o)
            = TailerArgs.parseArgs_from args (Analyzer.hypothesis o)) as H.
  { clear args. induction n as [|n IH]; intros args Hlen o.
    - destruct args; [reflexivity | simpl in Hlen; lia].
    - destruct args as [|a rest]; [reflexivity|].
      simpl in Hlen. simpl.
      destruct (String.eqb a "--json") eqn:Ej.
      + apply String.eqb_eq in Ej. subst a. simpl.
        rewrite IH by lia. reflexivity.
      + destruct (String.eqb a "--hypothesis" || String.eqb a "-h").
        * destruct rest as [|v rest']; [reflexivity|].
          simpl in Hlen. rewrite IH by lia. reflexivity.
        * apply IH. lia. }
  intros o. now apply (H (length args)).
Qed.

(** X12: The analyzer and the tailer choose the same hypothesis from the
    same command line, whatever it holds; the analyzer's own option
    [--json] does not shift what the tailer reads. *)
Theorem scripts_choose_same_hypothesis (args : list string) :
  Analyzer.hypothesis (Analyzer.parseArgs args) = TailerArgs.parseArgs args.
Proof. apply parseArgs_from_hypothesis. Qed.

Lemma parseArgs_from_command (ws : list word) :
  Forall (fun w => well_spelled w = true) ws ->
  forall o rest,
    Analyzer.parseArgs_from (command ws ++ rest) o
    = Analyzer.parseArgs_from rest
        {| Analyzer.json_output := Analyzer.json_output o || wants_json ws;
           Analyzer.hypothesis := chosen (Analyzer.hypothesis o) ws |}.
Proof.
  induction 1 as [|w ws Hw _ IH]; intros o rest.
  - simpl. rewrite orb_false_r. now destruct o.
  - unfold command in *. simpl flat_map. rewrite <- app_assoc.
    destruct w as [|long v|s].
    + simpl. rewrite IH. simpl. now rewrite ?orb_true_r.
    + destruct long; simpl; rewrite IH; simpl; reflexivity.
    + simpl in Hw. apply negb_true_iff in Hw. unfold is_flag in Hw.
      apply orb_false_iff in Hw as [Hw Hh].
      apply orb_false_iff in Hw as [Hj Hl].
      simpl. rewrite Hj, Hl, Hh. simpl. rewrite IH. reflexivity.
Qed.

(** X10: A command line written from a list of options is read back:
    [--json] is set when it occurs, and the hypothesis is the value of
    the last [--hypothesis] or [-h], taken as it stands even when it is
    spelled like an option. *)
Theorem command_line_read_back (ws : list word) :
  Forall (fun w => well_spelled w = true) ws ->
  Analyzer.parseArgs (command ws)
  = {| Analyzer.json_output := wants_json ws;
       Analyzer.hypothesis := chosen None ws |}.
Proof.
  intros H. unfold Analyzer.parseArgs.
  rewrite <- (app_nil_r (command ws)), (parseArgs_from_command ws H).
  reflexivity.
Qed.

(** X11: An option [--hypothesis] or [-h] at the end of the command line,
    without its value, withdraws the hypothesis chosen before it: the
    value read is [undefined], and the scripts run without a filter. *)
Theorem dangling_option_withdraws_choice (ws : list word) (long : bool) :
  Forall (fun w => well_spelled w = true) ws ->
  Analyzer.hypothesis
    (Analyzer.parseArgs
       (command ws ++ [if long then "--hypothesis" else "-h"])) = None.
Proof.
  intros H. unfold Analyzer.parseArgs.
  rewrite (parseArgs_from_command ws H). now destruct long.
Qed.

End CommandLines.

(* ===================================================================== *)
(** * The analyzer: the summary                                          *)
(* ===================================================================== *)

Section SummaryFacts.

Import Analyzer Summary.

Lemma get_count_error (k h : string) (t : tally) :
  get k (count_error h t)
  = if String.eqb h k then Some (default 0 (get h t) + 1) else get k t.
Proof.
  induction t as [|[k' n] t IH]; simpl.
  - now destruct (String.eqb h k).
  - destruct (String.eqb k' h) eqn:E1; simpl.
    + apply String.eqb_eq in E1. subst k'.
      now destruct (String.eqb h k).
    + rewrite IH. destruct (String.eqb h k) eqn:E2.
      * apply String.eqb_eq in E2. subst k. now rewrite E1.
      * reflexivity.
Qed.

Lemma errors_of_snoc (k : string) (l : list (errorInfo * string))
    (x : errorInfo * string) :
  errors_of k (l ++ [x])
  = errors_of k l + (if String.eqb (snd x) k then 1 else 0).
Proof.
  unfold errors_of. rewrite List.filter_app, length_app. simpl.
  now destruct (String.eqb (snd x) k).
Qed.

(** [errorsByH] holds the error count of each hypothesis that has one. *)
Lemma get_errorsByH (k : string) (l : list (errorInfo * string)) :
  get k (errorsByH l)
  = if Nat.eqb (errors_of k l) 0 then None else Some (errors_of k l).
Proof.
  revert k. induction l as [|x l IH] using rev_ind; intros k; [reflexivity|].
  unfold errorsByH in *. rewrite fold_left_app. simpl.
  rewrite get_count_error, errors_of_snoc.
  destruct (String.eqb (snd x) k) eqn:E.
  - apply String.eqb_eq in E. subst k. rewrite IH.
    destruct (errors_of (snd x) l); simpl; [reflexivity|].
    destruct (Nat.eqb_spec (S n + 1) 0); [lia | reflexivity].
  - rewrite IH, Nat.add_0_r. reflexivity.
Qed.

Lemma get_In (k : string) (n : nat) (t : tally) :
  get k t = Some n -> In (k, n) t.
Proof.
  induction t as [|[k' m] t IH]; [discriminate|].
  simpl. destruct (String.eqb k' k) eqn:E.
  - apply String.eqb_eq in E. intros H. injection H as ->. subst. now left.
  - intros H. right. now apply IH.
Qed.

Lemma count_error_keys (h k : string) (t : tally) :
  In k (List.map fst (count_error h t)) -> k = h \/ In k (List.map fst t).
Proof.
  induction t as [|[k' n] t IH]; simpl.
  - intros [<-|[]]. now left.
  - destruct (String.eqb k' h); simpl.
    + intros [<-|H]; right; [now left | now right].
    + intros [<-|H]; [right; now left|].
      destruct (IH H) as [->|H']; [now left | right; now right].
Qed.

Lemma count_error_NoDup (h : string) (t : tally) :
  List.NoDup (List.map fst t) -> List.NoDup (List.map fst (count_error h t)).
Proof.
  induction t as [|[k n] t IH]; simpl; intros H.
  - constructor; [intros [] | constructor].
  - inversion H as [|? ? Hk Ht]; subst.
    destruct (String.eqb k h) eqn:E; simpl.
    + constructor; assumption.
    + constructor; [|now apply IH].
      intros Hin. destruct (count_error_keys h k t Hin) as [->|Hin'].
      * rewrite String.eqb_refl in E. discriminate E.
      * contradiction.
Qed.

Lemma errorsByH_NoDup (l : list (errorInfo * string)) :
  List.NoDup (List.map fst (errorsByH l)).
Proof.
  induction l as [|x l IH] using rev_ind; [constructor|].
  unfold errorsByH in *. rewrite fold_left_app. simpl.
  now apply count_error_NoDup.
Qed.

Lemma In_get (k : string) (n : nat) (t : tally) :
  List.NoDup (List.map fst t) -> In (k, n) t -> get k t = Some n.
Proof.
  induction t as [|[k' m] t IH]; [intros _ []|].
  simpl. intros Hnd Hin. inversion Hnd as [|? ? Hk Ht]; subst.
  destruct Hin as [Heq|Hin].
  - injection Heq as -> ->. now rewrite String.eqb_refl.
  - destruct (String.eqb k' k) eqn:E; [|now apply IH].
    apply String.eqb_eq in E. subst k'. exfalso. apply Hk.
    change k with (fst (k, n)). now apply List.in_map.
Qed.

Lemma insert_index_In (x y : N * (string * nat)) (l : list (N * (string * nat))) :
  In y (insert_index x l) <-> y = x \/ In y l.
Proof.
  induction l as [|z l IH]; simpl.
  - intuition.
  - destruct (N.ltb (fst x) (fst z)); simpl; [intuition|].
    rewrite IH. intuition.
Qed.

Lemma sort_index_In (y : N * (string * nat)) (l : list (N * (string * nat))) :
  In y (fold_right insert_index [] l) <-> In y l.
Proof.
  induction l as [|z l IH]; simpl; [reflexivity|].
  rewrite insert_index_In, IH. intuition.
Qed.

(** [Object.entries] yields the properties of the object, each once. *)
Lemma entries_In (kv : string * nat) (t : tally) :
  In kv (entries t) <-> In kv t.
Proof.
  unfold entries. rewrite List.in_app_iff, List.filter_In, List.in_map_iff.
  split.
  - intros [(y & <- & Hy) | [H _]]; [|exact H].
    apply (proj1 (sort_index_In _ _)) in Hy.
    apply (proj2 (list_elem_of_In _ _)) in Hy.
    apply (proj1 (list_elem_of_omap _ _ _)) in Hy as (z & Hz & Hf).
    destruct (array_index (fst z)); [|discriminate].
    simpl in Hf. injection Hf as <-. simpl.
    now apply (proj1 (list_elem_of_In _ _)).
  - intros H. destruct (array_index (fst kv)) as [i|] eqn:E.
    + left. exists (i, kv). split; [reflexivity|].
      apply (proj2 (sort_index_In _ _)). apply (proj1 (list_elem_of_In _ _)).
      apply (proj2 (list_elem_of_omap _ _ _)). exists kv.
      split; [now apply (proj2 (list_elem_of_In _ _))|].
      now rewrite E.
    + right. split; [exact H | reflexivity].
Qed.

Lemma insert_desc_In (x y : string * nat) (l : tally) :
  In y (insert_desc x l) <-> y = x \/ In y l.
Proof.
  induction l as [|z l IH]; simpl.
  - intuition.
  - destruct (Nat.leb (snd z) (snd x)); simpl; [intuition|].
    rewrite IH. intuition.
Qed.

Lemma sort_desc_In (y : string * nat) (l : tally) :
  In y (sort_desc l) <-> In y l.
Proof.
  unfold sort_desc. induction l as [|z l IH]; simpl; [reflexivity|].
  rewrite insert_desc_In, IH. intuition.
Qed.

Lemma insert_desc_topped (x : string * nat) (l : tally) :
  topped l -> topped (insert_desc x l).
Proof.
  destruct l as [|z l]; simpl.
  - intros _. constructor; [lia | constructor].
  - intros H. destruct (Nat.leb_spec (snd z) (snd x)) as [Hle|Hlt]; simpl.
    + constructor; [lia|].
      eapply List.Forall_impl; [|exact H]. simpl. intros a Ha. lia.
    + inversion H as [|? ? Hz Hl]; subst.
      constructor; [lia|].
      apply List.Forall_forall. intros a Ha.
      apply (proj1 (insert_desc_In _ _ _)) in Ha as [->|Ha]; [lia|].
      rewrite List.Forall_forall in Hl. now apply Hl.
Qed.

Lemma sort_desc_topped (l : tally) : topped (sort_desc l).
Proof.
  unfold sort_desc. induction l as [|z l IH]; simpl; [exact I|].
  now apply insert_desc_topped.
Qed.

(** The first pair after the sort is a property of [errorsByH] whose
    count no other exceeds. *)
Lemma sort_desc_head (k : string) (n : nat) (r t : tally) :
  sort_desc (entries t) = (k, n) :: r ->
  In (k, n) t /\ forall k' m, In (k', m) t -> m <= n.
Proof.
  intros H. split.
  - apply (proj1 (entries_In _ _)), (proj1 (sort_desc_In _ _)).
    rewrite H. now left.
  - intros k' m Hin.
    apply (proj2 (entries_In _ _)), (proj2 (sort_desc_In _ _)) in Hin.
    pose proof (sort_desc_topped (entries t)) as Htop.
    rewrite H in *. simpl in Htop. rewrite List.Forall_forall in Htop.
    exact (Htop _ Hin).
Qed.

Lemma errors_of_entries (k : string) (errs : list (errorInfo * string))
    (E : list entry) :
  List.map snd errs = List.map hypothesisId E ->
  errors_of k errs = length (List.filter (fun e => String.eqb (hypothesisId e) k) E).
Proof.
  unfold errors_of. revert E. induction errs as [|x errs IH]; intros [|e E] H;
    try discriminate H; [reflexivity|].
  simpl in H. injection H as Hx Hrest. simpl. rewrite Hx.
  destruct (String.eqb (hypothesisId e) k); simpl; now rewrite (IH E Hrest).
Qed.

Variable clock : nat -> Z.
Variable filterHypothesis : option string.

(** X9: The summary judges the retained entries.  Over every store and
    filter, the summary of the report names a hypothesis only with its
    number of error-level entries among those that pass the filter, a
    number above zero that no other hypothesis exceeds; it says that no
    errors were found exactly when entries pass and none is an error, and
    that no entries were found exactly when none passes.  Reading the
    first pair of the sorted counts never fails.  No entry that passes
    has a hypothesis that names a property of [Object.prototype]. *)
Theorem summary_judges_retained (es : list entry) :
  Forall (fun e => own_name (hypothesisId e) = true)
    (retained filterHypothesis es) ->
  judges (retained filterHypothesis es)
    (summary (analyzeEntries clock es filterHypothesis)).
Proof.
  intros _. pose proof (loop_tallies clock filterHypothesis es) as (Htot & _ & Herrs).
  set (R := retained filterHypothesis es) in *.
  assert (total (analyzeEntries clock es filterHypothesis) = length R) as Htot'
    by exact Htot.
  assert (List.map snd (all_errors (analyzeEntries clock es filterHypothesis))
          = List.map hypothesisId (List.filter is_error R)) as Hids.
  { change (all_errors (analyzeEntries clock es filterHypothesis))
      with (all_errors (fst (fold_left (step clock filterHypothesis) es
                               (empty_analysis, 0)))).
    apply (f_equal (List.map snd)) in Herrs.
    rewrite !List.map_map in Herrs. exact Herrs. }
  set (a := analyzeEntries clock es filterHypothesis) in *. clearbody a.
  clear Htot Herrs.
  assert (forall k, errors_of k (all_errors a) = error_entries k R) as Hcount.
  { intros k. unfold error_entries. now apply errors_of_entries. }
  unfold summary.
  destruct (Nat.ltb_spec 0 (length (all_errors a))) as [Hpos|Hzero].
  - pose proof (errorsByH_NoDup (all_errors a)) as Hnd.
    destruct (sort_desc (entries (errorsByH (all_errors a)))) as [|[k n] r] eqn:Es.
    + simpl. destruct (all_errors a) as [|x errs] eqn:Ea; [simpl in Hpos; lia|].
      pose proof (get_errorsByH (snd x) (x :: errs)) as Hg.
      unfold errors_of in Hg at 1. simpl in Hg. rewrite String.eqb_refl in Hg.
      simpl in Hg.
      apply get_In, (proj2 (entries_In _ _)), (proj2 (sort_desc_In _ _)) in Hg.
      rewrite Es in Hg. destruct Hg.
    + destruct (sort_desc_head k n r _ Es) as [Hin Hmax].
      apply (In_get _ _ _ Hnd) in Hin. rewrite get_errorsByH in Hin.
      destruct (Nat.eqb_spec (errors_of k (all_errors a)) 0) as [|Hnz];
        [discriminate Hin|].
      injection Hin as Hn. rewrite Hcount in Hn, Hnz.
      simpl. split; [now symmetry|]. split; [lia|].
      intros other. rewrite <- Hcount.
      pose proof (get_errorsByH other (all_errors a)) as Hg.
      destruct (Nat.eqb_spec (errors_of other (all_errors a)) 0) as [->|_];
        [lia|].
      apply get_In in Hg. exact (Hmax _ _ Hg).
  - assert (List.filter is_error R = []) as Hnone.
    { destruct (all_errors a); [|simpl in Hzero; lia].
      simpl in Hids. symmetry in Hids. now apply List.map_eq_nil in Hids. }
    destruct (Nat.ltb_spec 0 (total a)) as [Ht|Ht]; simpl.
    + split; [|exact Hnone]. intros HR. rewrite HR in Htot'. simpl in Htot'. lia.
    + destruct R; [reflexivity | simpl in Htot'; lia].
Qed.

End SummaryFacts.

(* ===================================================================== *)
(** * Runs of the analyzer and the tailer on the sample entries          *)
(* ===================================================================== *)

Section FurtherRuns.

Import Analyzer Tailer Samples CommandLine Summary.

(** The store of the end-to-end scenario is read back. *)
Lemma analyzer_reads_stored_lines_witness :
  Analyzer.parseLogFile MiniJson.parse_entry
    (Dir (Some (unlines [line entry_A; line entry_B])))
  = Ok [stored_A; stored_B].
Proof.
  apply (analyzer_reads_stored_lines MiniJson.parse_entry).
  constructor; [repeat split; vm_compute; reflexivity|].
  constructor; [repeat split; vm_compute; reflexivity|].
  constructor.
Defined.

(** The report over A, B and C with the filter A. *)
Lemma report_tallies_retained_witness :
  report_tallies (retained (Some "A") [stored_A; stored_B; stored_C])
    (analyzeEntries clock_morning [stored_A; stored_B; stored_C] (Some "A")).
Proof.
  apply (report_tallies_retained clock_morning (Some "A")).
  vm_compute. repeat constructor.
Defined.

(** Three errors, two of hypothesis A: the summary names A. *)
Lemma summary_judges_retained_witness :
  judges (retained None [stored_A; stored_C; stored_B; stored_A])
    (summary (analyzeEntries clock_morning
                [stored_A; stored_C; stored_B; stored_A] None)).
Proof.
  apply (summary_judges_retained clock_morning None).
  vm_compute. repeat constructor.
Defined.

(** A value spelled like an option is taken as a value. *)
Lemma command_line_read_back_witness :
  Analyzer.parseArgs
    (command [Other "verbose"; Choose true "A"; Json; Choose false "--json"])
  = {| json_output := true; hypothesis := Some "--json" |}.
Proof.
  apply (command_line_read_back
           [Other "verbose"; Choose true "A"; Json; Choose false "--json"]).
  repeat constructor.
Defined.

Lemma dangling_option_withdraws_choice_witness :
  hypothesis (Analyzer.parseArgs (command [Choose true "A"] ++ ["-h"])) = None.
Proof.
  apply (dangling_option_withdraws_choice [Choose true "A"] false).
  repeat constructor.
Defined.

(** The tailer had read 500 bytes; the store now holds the line of B. *)
Lemma shorter_store_is_read_from_start_witness :
  readNewContent MiniJson.parse_entry None
    {| lastSize := 500; buffer := "rest" |}
    (Dir (Some (line entry_B +:+ single newline)))
  = ({| lastSize := String.length (line entry_B +:+ single newline);
        buffer := List.last (split_nl (line entry_B +:+ single newline)) EmptyString |},
     processNewLines MiniJson.parse_entry
       (lines_of (line entry_B +:+ single newline)) None).
Proof.
  apply (shorter_store_is_read_from_start MiniJson.parse_entry None).
  - vm_compute. lia.
  - vm_compute. reflexivity.
Defined.

End FurtherRuns.

(* ===================================================================== *)
(** * The loggers and the collector                                      *)
(* ===================================================================== *)

Section LoggerFacts.

Import Collector Logger.

Variable JSON_parse : string -> option json.
Variable JSON_stringify : json -> string.


End LoggerFacts.

Section LoggerRuns.

Import Collector Logger Samples.


End LoggerRuns.

(* ===================================================================== *)
(** * The analyzer with inherited lookups                                *)
(* ===================================================================== *)

Section ReportFacts.

Import Analyzer ReportSpec.

Lemma inherited_text_own (k : string) :
  own_name k = true -> Report.inherited_text k = None.
Proof.
  unfold own_name, Report.inherited_text. intros H.
  apply negb_true_iff in H.
  destruct (String.eqb k "__proto__") eqn:E1.
  { apply String.eqb_eq in E1. subst k. discriminate H. }
  destruct (String.eqb k "constructor") eqn:E2.
  { apply String.eqb_eq in E2. subst k. discriminate H. }
  now rewrite H.
Qed.

(** On a key of its own a dictionary of numbers is bumped as a finite
    map is. *)
Lemma bump_own (k : string) (m : gmap string nat) :
  own_name k = true ->
  Report.bump k (Report.Count <$> m) = Report.Count <$> bump k m.
Proof.
  intros Hk. unfold Report.bump, bump.
  rewrite lookup_fmap, fmap_insert.
  destruct (m !! k) as [n|]; simpl; [reflexivity|].
  now rewrite (inherited_text_own k Hk).
Qed.

Lemma lift_fresh_group (ts : Z) :
  lift_group (fresh_group ts) = Report.fresh_group ts.
Proof.
  unfold lift_group, fresh_group, Report.fresh_group. simpl.
  now rewrite !fmap_empty.
Qed.

Lemma lift_update_group (ts : Z) (e : entry) (g : group) :
  own_name (level_of e) = true -> own_name (location e) = true ->
  Report.update_group ts e (lift_group g) = lift_group (update_group ts e g).
Proof.
  intros Hl Hloc. unfold Report.update_group, lift_group, update_group. simpl.
  now rewrite (bump_own _ _ Hl), (bump_own _ _ Hloc).
Qed.

(** One turn of the loop on an entry whose keys are its own: the two
    analyzers do the same. *)
Lemma step_lift clock filt (a : analysis) (t : nat) (e : entry) :
  (filtered_out filt e = false -> own_keys e = true) ->
  Report.step clock filt (lift a, t) e
  = Ok (lift (fst (step clock filt (a, t) e)), snd (step clock filt (a, t) e)).
Proof.
  intros Hown. unfold Report.step, step.
  destruct (filtered_out filt e); [reflexivity|].
  specialize (Hown eq_refl). unfold own_keys in Hown.
  apply andb_prop in Hown as [Hown Hloc]. apply andb_prop in Hown as [Hh Hl].
  simpl. destruct (timestamp_of clock t e) as [ts t'].
  rewrite (inherited_text_own _ Hh). simpl.
  unfold lift. simpl. f_equal. f_equal. f_equal.
  rewrite fmap_insert, lookup_fmap. f_equal.
  destruct (hypotheses a !! hypothesisId e) as [g|]; simpl.
  - now apply lift_update_group.
  - rewrite <- lift_fresh_group. now apply lift_update_group.
Qed.

Lemma loop_lift clock filt (es : list entry) (a : analysis) (t : nat) :
  Forall (fun e => own_keys e = true) (retained filt es) ->
  Report.loop clock filt es (lift a, t)
  = Ok (lift (fst (fold_left (step clock filt) es (a, t))),
        snd (fold_left (step clock filt) es (a, t))).
Proof.
  revert a t. induction es as [|e es IH]; intros a t H; [reflexivity|].
  simpl. rewrite step_lift.
  - destruct (step clock filt (a, t) e) as [a1 t1] eqn:E. simpl.
    apply IH. unfold retained in *. simpl in H.
    destruct (filtered_out filt e); simpl in H; [exact H|].
    now inversion H.
  - intros Hf. unfold retained in H. simpl in H. rewrite Hf in H. simpl in H.
    now inversion H.
Qed.

Lemma skeleton_update_group (ts : Z) (e : entry) (g' : Report.group) (g : group) :
  skeleton_group g' = plain_skeleton_group g ->
  skeleton_group (Report.update_group ts e g')
  = plain_skeleton_group (update_group ts e g).
Proof.
  unfold skeleton_group, plain_skeleton_group. simpl.
  intros H. injection H as -> -> -> ->. reflexivity.
Qed.

(** One turn of the loop on an entry whose hypothesis is a key of its
    own: no exception, and apart from the counters of levels and
    locations the two analyzers do the same. *)
Lemma step_skeleton clock filt (a' : Report.analysis) (a : analysis) (t : nat)
    (e : entry) :
  (filtered_out filt e = false -> own_name (hypothesisId e) = true) ->
  skeleton a' = plain_skeleton a ->
  exists a1',
    Report.step clock filt (a', t) e
    = Ok (a1', snd (step clock filt (a, t) e))
    /\ skeleton a1' = plain_skeleton (fst (step clock filt (a, t) e)).
Proof.
  intros Hown Hsk. unfold Report.step, step.
  destruct (filtered_out filt e); [eauto|].
  specialize (Hown eq_refl). simpl.
  destruct (timestamp_of clock t e) as [ts t'].
  rewrite (inherited_text_own _ Hown). simpl.
  eexists. split; [reflexivity|].
  unfold skeleton, plain_skeleton in *. simpl.
  injection Hsk as Ht Hr Hh He.
  rewrite Ht, Hr, He, !fmap_insert, Hh. f_equal. f_equal. f_equal.
  apply skeleton_update_group.
  apply (f_equal (fun m => m !! hypothesisId e)) in Hh.
  rewrite !lookup_fmap in Hh.
  destruct (Report.hypotheses a' !! hypothesisId e) as [g'|];
    destruct (hypotheses a !! hypothesisId e) as [g|];
    try discriminate Hh;
    [ exact (f_equal (default (plain_skeleton_group g)) Hh) | reflexivity ].
Qed.

Lemma loop_skeleton clock filt (es : list entry) (a' : Report.analysis)
    (a : analysis) (t : nat) :
  Forall (fun e => own_name (hypothesisId e) = true) (retained filt es) ->
  skeleton a' = plain_skeleton a ->
  exists a1',
    Report.loop clock filt es (a', t)
    = Ok (a1', snd (fold_left (step clock filt) es (a, t)))
    /\ skeleton a1' = plain_skeleton (fst (fold_left (step clock filt) es (a, t))).
Proof.
  revert a' a t. induction es as [|e es IH]; intros a' a t H Hsk; [simpl; eauto|].
  assert (filtered_out filt e = false -> own_name (hypothesisId e) = true) as He.
  { intros Hf. unfold retained in H. simpl in H. rewrite Hf in H. simpl in H.
    now inversion H. }
  assert (Forall (fun e => own_name (hypothesisId e) = true) (retained filt es))
    as Hes.
  { unfold retained in *. simpl in H.
    destruct (filtered_out filt e); simpl in H; [exact H | now inversion H]. }
  destruct (step_skeleton clock filt a' a t e He Hsk) as (a1' & Hstep & Hsk1).
  simpl. rewrite Hstep.
  destruct (step clock filt (a, t) e) as [a1 t1] eqn:E. simpl in *.
  now apply IH.
Qed.

Lemma skeleton_empty : skeleton Report.empty_analysis = plain_skeleton empty_analysis.
Proof. reflexivity. Qed.

(** With hypotheses that are keys of their own the analyzer yields a
    report, which apart from the counters of levels and locations and
    the duration is the one of [Analyzer]. *)
Lemma analyzeEntries_skeleton clock filt (es : list entry) :
  Forall (fun e => own_name (hypothesisId e) = true) (retained filt es) ->
  exists a',
    Report.loop clock filt es (Report.empty_analysis, 0) = Ok (a', snd (fold_left (step clock filt) es (empty_analysis, 0)))
    /\ Report.analyzeEntries clock es filt = Ok (Report.with_duration a')
    /\ skeleton a'
       = plain_skeleton (fst (fold_left (step clock filt) es (empty_analysis, 0))).
Proof.
  intros H.
  destruct (loop_skeleton clock filt es _ _ 0 H skeleton_empty) as (a' & Hl & Hs).
  exists a'. split; [exact Hl|]. split; [|exact Hs].
  unfold Report.analyzeEntries. now rewrite Hl.
Qed.

End ReportFacts.

Section ReportRuns.

Import Analyzer ReportSpec.

Variable JSON_parse : string -> option entry.



End ReportRuns.

Section ReportClock.

Import Analyzer ReportSpec.






End ReportClock.

(* ===================================================================== *)
(** * The analyzer over a store: repeated runs, the filter, the sums     *)
(* ===================================================================== *)

Section ReportClaims.

Import Analyzer ReportSpec.

Variable JSON_parse : string -> option entry.





Lemma skeleton_range (a' : Report.analysis) (a : analysis) :
  skeleton a' = plain_skeleton a -> Report.range a' = range a.
Proof. unfold skeleton, plain_skeleton. intros H. now injection H. Qed.




End ReportClaims.

Section ReportSums.

Import Analyzer ReportSpec.

Lemma sum_of_counts (m : gmap string nat) :
  sum_of (Report.Count <$> m) = Some (msum id m).
Proof.
  induction m as [|k n m Hk IH] using map_ind.
  - rewrite fmap_empty. unfold sum_of, msum. now rewrite !map_fold_empty.
  - rewrite fmap_insert, (msum_insert_fresh id k n m Hk).
    unfold sum_of in *.
    rewrite (map_fold_insert_L
               (fun (_ : string) c acc =>
                  match c, acc with
                  | Report.Count n, Some s => Some (n + s)
                  | _, _ => None
                  end)).
    + rewrite IH. reflexivity.
    + intros j1 j2 [n1|s1] [n2|s2] [y|] _ _ _; try reflexivity.
      f_equal. lia.
    + rewrite lookup_fmap, Hk. reflexivity.
Qed.

Lemma lift_group_ok (g : group) :
  Spec.group_ok g -> group_ok (lift_group g).
Proof.
  unfold Spec.group_ok, group_ok, lift_group. simpl.
  intros (Hl & Hloc & He & Ht).
  rewrite !sum_of_counts, <- Hl, <- Hloc, lookup_fmap.
  repeat split; try exact Ht.
  rewrite He. now destruct (levels g !! "error").
Qed.

(** A report whose counters are all numbers keeps the sums that the
    report of [Analyzer] keeps. *)
Lemma lift_report_ok (a : analysis) :
  Spec.report_ok a -> report_ok (lift a).
Proof.
  unfold Spec.report_ok, report_ok, lift. simpl.
  intros (Hg & Ht & He). split; [|split].
  - intros k g' Hk. rewrite lookup_fmap in Hk.
    destruct (hypotheses a !! k) as [g|] eqn:E; [|discriminate Hk].
    simpl in Hk. injection Hk as <-. apply lift_group_ok. exact (Hg k g E).
  - rewrite Ht. unfold msum. now rewrite map_fold_fmap.
  - rewrite He. unfold msum. now rewrite map_fold_fmap.
Qed.

(** X18: On keys that name no property of [Object.prototype] the report
    keeps its sums.  When the entries that pass the filter give the
    dictionaries only such keys, the analyzer yields a report in which
    each group's count is the sum of its per-level counts and the sum of
    its per-location counts, its error list is as long as its count for
    the level 'error', and its first time stamp is at most its last; the
    total is the sum of the group counts, and the global error list is as
    long as the groups' error lists together. *)
Theorem report_invariants_on_own_keys (clock : nat -> Z) (entries : list entry)
    (filterHypothesis : option string) :
  Forall (fun e => own_keys e = true) (retained filterHypothesis entries) ->
  exists r,
    Report.analyzeEntries clock entries filterHypothesis = Ok r /\ report_ok r.
Proof.
  intros H. unfold Report.analyzeEntries.
  change Report.empty_analysis with (lift empty_analysis).
  rewrite (loop_lift clock filterHypothesis entries empty_analysis 0 H).
  eexists. split; [reflexivity|].
  pose proof (loop_ok clock filterHypothesis entries (empty_analysis, 0)
                empty_analysis_ok) as Hok.
  apply lift_report_ok in Hok.
  unfold report_ok, Report.with_duration in *. simpl in *. exact Hok.
Qed.

End ReportSums.

Section ReportRange.

Import Analyzer ReportSpec.

Variable clock : nat -> Z.
Variable filterHypothesis : option string.

Lemma to_double_small (z : Z) :
  (Z.abs z < 9007199254740992)%Z -> Report.to_double z = z.
Proof.
  intros H. unfold Report.to_double.
  destruct (Z.leb_spec (Z.log2 (Z.abs z) - 52) 0) as [_|Hk]; [reflexivity|].
  exfalso.
  assert (Z.log2 (Z.abs z) < 53)%Z; [|lia].
  destruct (Z.eq_dec (Z.abs z) 0%Z) as [->|Hz]; [simpl; lia|].
  change (Z.abs z < 2 ^ 53)%Z in H.
  apply Z.log2_lt_pow2; [lia | exact H].
Qed.

Lemma small_stamp_bounds (e : entry) :
  small_stamp e = true ->
  has_timestamp e = true
  /\ (Z.abs (default 0%Z (timestamp e)) < 4503599627370496)%Z.
Proof.
  unfold small_stamp, has_timestamp, Js.truthy_number.
  destruct (timestamp e) as [t|]; [|discriminate]. simpl.
  intros H. apply andb_prop in H as [H Hhi]. apply andb_prop in H as [Hnz Hlo].
  apply Z.ltb_lt in Hhi, Hlo. split; [exact Hnz | lia].
Qed.

(** X8: When every entry has a time stamp other than zero and below 2^52
    in magnitude, and no entry that passes the filter has a hypothesis
    that names a property of [Object.prototype], the analyzer yields a
    report whose time range is unset (with duration 0) if no entry
    passes, and otherwise runs from the least to the greatest time stamp
    of the entries that pass, the duration being their difference. *)
Theorem time_range_spans_stamps (es : list entry) :
  Forall (fun e => small_stamp e = true) es ->
  Forall (fun e => own_name (hypothesisId e) = true)
    (retained filterHypothesis es) ->
  exists r,
    Report.analyzeEntries clock es filterHypothesis = Ok r
    /\ match stamps (retained filterHypothesis es) with
       | [] =>
           Report.range r
           = {| first_ts := None; last_ts := None; duration := 0 |}
       | t :: ts =>
           exists m M,
             Report.range r
             = {| first_ts := Some m; last_ts := Some M; duration := M - m |}
             /\ spans m M (t :: ts)
       end.
Proof.
  intros Hsmall Hown.
  assert (Forall (fun e => has_timestamp e = true) es) as Hs.
  { eapply List.Forall_impl; [|exact Hsmall].
    intros e He. exact (proj1 (small_stamp_bounds e He)). }
  assert (Forall (fun t => (Z.abs t < 4503599627370496)%Z)
            (stamps (retained filterHypothesis es))) as Hb.
  { unfold stamps, retained. apply List.Forall_forall. intros t Ht.
    apply List.in_map_iff in Ht as (e & <- & He).
    apply List.filter_In in He as [He _].
    rewrite List.Forall_forall in Hsmall.
    exact (proj2 (small_stamp_bounds e (Hsmall e He))). }
  destruct (analyzeEntries_skeleton clock filterHypothesis es Hown)
    as (a' & _ & Ha & Hsk).
  exists (Report.with_duration a'). split; [exact Ha|].
  destruct (loop_range clock filterHypothesis es Hs) as [Hr Hd].
  apply skeleton_range in Hsk. unfold Report.with_duration. simpl.
  rewrite Hsk.
  destruct (range (fst (fold_left (step clock filterHypothesis) es
                          (empty_analysis, 0)))) as [f l d].
  simpl in *. subst d.
  destruct (stamps (retained filterHypothesis es)) as [|t ts].
  - destruct Hr as [Hf Hl]. simpl in Hf, Hl. subst f l. reflexivity.
  - destruct Hr as (m & M & Hf & Hl & Hm0 & HM0 & Hspan).
    simpl in Hf, Hl. subst f l.
    exists m, M. split; [|exact Hspan]. simpl.
    apply Z.eqb_neq in Hm0, HM0. rewrite Hm0, HM0. simpl.
    destruct Hspan as (Hm & HM & _ & _).
    rewrite List.Forall_forall in Hb.
    pose proof (Hb m Hm). pose proof (Hb M HM).
    rewrite to_double_small by lia. reflexivity.
Qed.

End ReportRange.

Section ReportSamples.

Import Analyzer ReportSpec Samples.

Local Abbreviation analyze := (Report.main MiniJson.parse_entry).






(** C10 fails on a location that names an inherited property.  The
    collector takes an entry whose location is [__proto__]; the analyzer
    reports a group of count 1 that has no location at all: the
    assignment to [h.locations['__proto__']] creates no property, and
    the count is not the sum of the per-location counts. *)
Theorem inherited_location_breaks_count :
  snd (Collector.server MiniJson.parse MiniJson.stringify now pid
         (post entry_proto) (Dir None))
  = store_proto
  /\ exists r g,
       fst (analyze clock_morning [] store_proto) = Ok r
       /\ Report.hypotheses r !! "A" = Some g
       /\ Report.count g = 1
       /\ Report.locations g = ∅
       /\ sum_of (Report.locations g) <> Some (Report.count g)
       /\ ~ report_ok r.
Proof.
  split; [vm_compute; reflexivity|].
  assert (exists r g,
             fst (analyze clock_morning [] store_proto) = Ok r
             /\ Report.hypotheses r !! "A" = Some g
             /\ Report.count g = 1
             /\ Report.locations g = ∅) as (r & g & Hr & Hg & Hc & Hl)
    by (vm_compute; eexists _, _; repeat split; reflexivity).
  exists r, g. split; [exact Hr|]. split; [exact Hg|]. split; [exact Hc|].
  split; [exact Hl|].
  assert (sum_of (Report.locations g) <> Some (Report.count g)) as Hsum.
  { rewrite Hl, Hc. unfold sum_of. rewrite map_fold_empty. discriminate. }
  split; [exact Hsum|].
  intros [Hok _]. destruct (Hok "A" g Hg) as (_ & Hloc & _). contradiction.
Qed.

(** A hypothesis that names an inherited property ends the analyzer:
    no group is created for it, and reading [h.levels] throws. *)
Example inherited_hypothesis_throws :
  snd (Collector.server MiniJson.parse MiniJson.stringify now pid
         (post entry_constructor) (Dir None))
  = store_constructor
  /\ fst (analyze clock_morning [] store_constructor)
     = Throw (Error "Cannot read properties of undefined (reading 'info')").
Proof. split; vm_compute; reflexivity. Qed.

Lemma report_invariants_on_own_keys_witness :
  exists r,
    Report.analyzeEntries clock_morning [stored_A; stored_proto; stored_B]
      (Some "B") = Ok r
    /\ report_ok r.
Proof.
  apply (report_invariants_on_own_keys clock_morning
           [stored_A; stored_proto; stored_B] (Some "B")).
  vm_compute. repeat constructor.
Defined.

Lemma time_range_spans_stamps_witness :
  exists r,
    Report.analyzeEntries clock_morning [stored_late; stored_A; stored_B] None
    = Ok r
    /\ exists m M,
         Report.range r
         = {| first_ts := Some m; last_ts := Some M; duration := M - m |}
         /\ spans m M [1700000040000%Z; now; now].
Proof.
  apply (time_range_spans_stamps clock_morning None
           [stored_late; stored_A; stored_B]).
  - repeat constructor.
  - vm_compute. repeat constructor.
Defined.

End ReportSamples.

(* ===================================================================== *)
(** * The tailer beside other processes                                  *)
(* ===================================================================== *)

Section WatchFacts.

Import Tailer.

Variable JSON_parse : string -> option entry.

(** A quiet cycle is a cycle on one state of the store. *)
Lemma quiet_cycle (filter : option string) (st : state) (f : fs) :
  Watch.readNewContent JSON_parse filter st f f f
  = readNewContent JSON_parse filter st f.
Proof. reflexivity. Qed.

Lemma react_of_event (filter : option string) (w : world) (ev : event) :
  Watch.react JSON_parse filter w (Watch.of_event ev)
  = react JSON_parse filter w ev.
Proof.
  destruct w as [[f st] out]. destruct ev as [line| |]; simpl.
  - now destruct (appendFileSync (line +:+ single newline) f).
  - reflexivity.
  - reflexivity.
Qed.

Lemma run_of_events (filter : option string) (evs : list event) (w : world) :
  Watch.run JSON_parse filter (List.map Watch.of_event evs) w
  = run JSON_parse filter evs w.
Proof.
  revert w. induction evs as [|ev evs IH]; intros w; [reflexivity|].
  simpl. rewrite react_of_event. apply IH.
Qed.

Lemma react_of_action (filter : option string) (w : world) (a : Feed.action) :
  Watch.react JSON_parse filter w (Watch.of_action a)
  = Feed.act JSON_parse filter w a.
Proof.
  destruct w as [[f st] out]. destruct a as [text|]; simpl.
  - now destruct (appendFileSync text f).
  - reflexivity.
Qed.

Lemma run_of_actions (filter : option string) (acts : list Feed.action)
    (w : world) :
  Watch.run JSON_parse filter (List.map Watch.of_action acts) w
  = Feed.feed JSON_parse filter acts w.
Proof.
  revert w. induction acts as [|a acts IH]; intros w; [reflexivity|].
  simpl. rewrite react_of_action. apply IH.
Qed.

(** X16: Text of single-byte characters is tailed without loss when no
    write falls into a detection cycle.  The tailer starts on a store of
    such text; lines that hold entries are appended while quiet detection
    cycles run in any order.  After a closing quiet cycle the tailer has
    printed the appended entries, each once, in the order of the
    appends. *)
Theorem single_byte_appends_are_printed
    (c0 : string) (st0 : state) (evs : list event) (es : list entry) :
  start (Dir (Some c0)) = Some st0 -> is_ascii c0 = true ->
  no_clear evs = true -> Forall2 (writes JSON_parse) (appended evs) es ->
  emitted
    (Watch.run JSON_parse None (List.map Watch.of_event evs ++ [Watch.quiet])
       (Dir (Some c0), st0, []))
  = List.map Printed es.
Proof.
  intros Hs Hc0 Hnc Hw.
  change [Watch.quiet] with (List.map Watch.of_event [Poll]).
  rewrite <- List.map_app, run_of_events.
  now apply (atomic_appends_are_printed JSON_parse (Dir (Some c0)) c0).
Qed.

(** C7, as the code has it.  Let clear-logs truncate the store, let new
    entries be appended as plain lines, and let no write fall into a
    detection cycle.  A cycle that finds the store shorter than the
    tailer's cursor acts from the reset state, cursor 0 and empty buffer,
    whatever is written while it runs.  When such a cycle runs while the
    store is still shorter than the cursor, then with further appends and
    quiet cycles in any order and a closing quiet cycle the tailer prints
    exactly the entries appended after the truncation, in order, after
    what it had printed before, and nothing of the old store again. *)
Theorem truncation_seen_then_appends
    (c : string) (st : state) (out0 : list output)
    (pre post : list event) (es : list entry) :
  appends_only pre = true ->
  String.length (unlines (appended pre)) < lastSize st ->
  no_clear post = true ->
  Forall2 (writes JSON_parse) (appended (pre ++ post)) es ->
  (forall f2 f3,
     Watch.readNewContent JSON_parse None st
       (Dir (Some (unlines (appended pre)))) f2 f3
     = Watch.readNewContent JSON_parse None reset
         (Dir (Some (unlines (appended pre)))) f2 f3)
  /\ emitted
       (Watch.run JSON_parse None
          (List.map Watch.of_event (Clear :: pre ++ Poll :: post ++ [Poll]))
          (Dir (Some c), st, out0))
     = out0 ++ List.map Printed es.
Proof.
  intros Hpre Hlt Hpost Hw. split.
  - intros f2 f3. unfold Watch.readNewContent. simpl.
    destruct (Nat.ltb_spec (String.length (unlines (appended pre))) (lastSize st))
      as [_|Hge]; [reflexivity | lia].
  - rewrite run_of_events.
    exact (proj2 (atomic_truncation_then_appends JSON_parse c st out0 pre post es
                    Hpre Hlt Hpost Hw)).
Qed.

(** X14: What the tailer hands on depends on the text alone, when no
    write falls into a detection cycle.  The tailer stands at the end of
    a store of single-byte characters with an empty buffer; writers
    append text of single-byte characters in pieces of any size, cut
    anywhere, and quiet detection cycles run at any point, the last one
    after the last write.  Then the tailer has handed the complete lines
    of the text written, in order and each once, to [processNewLines];
    the unterminated rest of the text is in the carry-over buffer and the
    cursor is at the end of the store. *)
Theorem pieces_do_not_matter (filter : option string) (c0 : string)
    (acts : list Feed.action) (out : list output) :
  is_ascii (c0 +:+ Feed.written acts) = true ->
  Watch.run JSON_parse filter (List.map Watch.of_action acts ++ [Watch.quiet])
    (Dir (Some c0), {| lastSize := String.length c0; buffer := EmptyString |}, out)
  = (Dir (Some (c0 +:+ Feed.written acts)),
     {| lastSize := String.length (c0 +:+ Feed.written acts);
        buffer := List.last (split_nl (Feed.written acts)) EmptyString |},
     out ++ processNewLines JSON_parse (lines_of (Feed.written acts)) filter).
Proof.
  intros Hascii.
  change [Watch.quiet] with (List.map Watch.of_action [Feed.Cycle]).
  rewrite <- List.map_app, run_of_actions.
  now apply atomic_pieces_do_not_matter.
Qed.

(** The lines that writers append. *)
Lemma write_lines (x : string) (ls : list string) :
  fold_left Watch.write
    (List.map (fun l => Watch.Put (l +:+ single newline)) ls) (Dir (Some x))
  = Dir (Some (x +:+ unlines ls)).
Proof.
  revert x. induction ls as [|l ls IH]; intros x.
  - simpl. now rewrite append_nil_r.
  - simpl. rewrite IH. f_equal. f_equal.
    now rewrite !append_assoc.
Qed.

(** A cycle that finds the complete lines [seen] after the cursor, while
    the lines [ahead] are appended before it reads: it hands on all of
    them, and moves the cursor to the end of [seen] only. *)
Lemma cycle_reads_ahead (filter : option string) (c0 : string)
    (seen ahead : list string) (f3 : fs) :
  is_ascii c0 = true -> Forall (plain) seen -> Forall (plain) ahead ->
  seen <> [] ->
  Watch.readNewContent JSON_parse filter
    {| lastSize := String.length c0; buffer := EmptyString |}
    (Dir (Some (c0 +:+ unlines seen)))
    (Dir (Some (c0 +:+ unlines (seen ++ ahead)))) f3
  = ({| lastSize := String.length (c0 +:+ unlines seen); buffer := EmptyString |},
     processNewLines JSON_parse (seen ++ ahead) filter).
Proof.
  intros Hc0 Hs Ha Hne. unfold Watch.readNewContent. simpl.
  rewrite length_append.
  destruct (Nat.ltb_spec (String.length c0 + String.length (unlines seen))
              (String.length c0)) as [Hlt|_]; [lia|].
  assert (0 < String.length (unlines seen)) as Hpos.
  { destruct seen as [|l ls]; [congruence|].
    simpl. rewrite length_append. simpl. lia. }
  simpl.
  destruct (Nat.ltb_spec (String.length c0)
              (String.length c0 + String.length (unlines seen))) as [_|Hge];
    [|lia].
  assert (Forall plain (seen ++ ahead)) as Hall by (apply Forall_app; now split).
  rewrite js_slice_ascii.
  2:{ rewrite is_ascii_app, Hc0. simpl.
      apply is_ascii_unlines, plain_is_ascii, Hall. }
  rewrite drop_bytes_length_app, append_nil_l.
  rewrite split_nl_unlines_only by apply plain_no_newline, Hall.
  unfold pop.
  rewrite removelast_app by discriminate.
  rewrite last_last. simpl. rewrite app_nil_r. reflexivity.
Qed.

Lemma react_cycle (filter : option string) (f : fs) (st : state)
    (out : list output) (during : list Watch.writer) :
  Watch.react JSON_parse filter (f, st, out) (Watch.Cycle during [])
  = (fold_left Watch.write during f,
     fst (Watch.readNewContent JSON_parse filter st f
            (fold_left Watch.write during f) (fold_left Watch.write during f)),
     out ++ snd (Watch.readNewContent JSON_parse filter st f
                   (fold_left Watch.write during f)
                   (fold_left Watch.write during f))).
Proof.
  unfold Watch.react. simpl.
  now destruct (Watch.readNewContent JSON_parse filter st f
                  (fold_left Watch.write during f)
                  (fold_left Watch.write during f)).
Qed.

(** X19: A line written while a detection cycle runs is printed twice.
    The tailer stands at the end of a store of single-byte characters, and
    the lines [seen], at least one, have been appended since.  A cycle
    begins; the lines [ahead] are appended after its [statSync] and before
    its [readFileSync].  This cycle prints the entries of [seen] and of
    [ahead] and leaves the cursor at the end of [seen]; the next cycle, a
    quiet one, prints the entries of [ahead] again. *)
Theorem write_inside_cycle_is_printed_twice
    (c0 : string) (seen ahead : list string) (es_seen es_ahead : list entry) :
  is_ascii c0 = true -> seen <> [] ->
  Forall2 (writes JSON_parse) seen es_seen ->
  Forall2 (writes JSON_parse) ahead es_ahead ->
  emitted
    (Watch.run JSON_parse None
       [Watch.Cycle
          (List.map (fun l => Watch.Put (l +:+ single newline)) ahead) [];
        Watch.quiet]
       (Dir (Some (c0 +:+ unlines seen)),
        {| lastSize := String.length c0; buffer := EmptyString |}, []))
  = List.map Printed (es_seen ++ es_ahead ++ es_ahead).
Proof.
  intros Hc0 Hne Hs Ha.
  pose proof (writes_plain JSON_parse _ _ Hs) as Hps.
  pose proof (writes_plain JSON_parse _ _ Ha) as Hpa.
  unfold Watch.run, Watch.quiet. cbn [fold_left].
  rewrite react_cycle, write_lines.
  rewrite !append_assoc, <- unlines_app.
  rewrite (cycle_reads_ahead None c0 seen ahead _ Hc0 Hps Hpa Hne).
  cbn [fst snd app].
  rewrite react_cycle. cbn [fold_left].
  rewrite quiet_cycle, unlines_app, <- append_assoc.
  rewrite (poll_pending JSON_parse None (c0 +:+ unlines seen) ahead).
  - unfold emitted. cbn [fst snd].
    rewrite processNewLines_app,
      (processNewLines_writes JSON_parse _ _ Hs),
      (processNewLines_writes JSON_parse _ _ Ha).
    now rewrite !List.map_app, <- app_assoc.
  - rewrite is_ascii_app, Hc0. simpl.
    apply is_ascii_unlines, plain_is_ascii, Hps.
  - exact Hpa.
Qed.

End WatchFacts.

Section WatchRuns.

Import Tailer Samples.

Local Abbreviation watch := (Watch.run MiniJson.parse_entry None).

(** The end-to-end run of two entries, A then B, with quiet detection
    cycles wherever one likes. *)
Lemma single_byte_appends_are_printed_witness :
  emitted
    (watch (List.map Watch.of_event
              [Append (line entry_A); Poll; Poll; Append (line entry_B)]
            ++ [Watch.quiet])
       (Dir (Some EmptyString), reset, []))
  = List.map Printed [stored_A; stored_B].
Proof.
  apply (single_byte_appends_are_printed MiniJson.parse_entry EmptyString).
  - reflexivity.
  - reflexivity.
  - reflexivity.
  - simpl. constructor; [exact line_A_written|].
    constructor; [exact line_B_written|]. constructor.
Defined.

Lemma truncation_seen_then_appends_witness :
  (forall f2 f3,
     Watch.readNewContent MiniJson.parse_entry None
       {| lastSize := String.length (line entry_A +:+ single newline);
          buffer := EmptyString |}
       (Dir (Some (unlines (appended [Append (line entry_B)])))) f2 f3
     = Watch.readNewContent MiniJson.parse_entry None reset
         (Dir (Some (unlines (appended [Append (line entry_B)])))) f2 f3)
  /\ emitted
       (watch
          (List.map Watch.of_event
             (Clear :: [Append (line entry_B)] ++ Poll
                :: [Append (line entry_C); Poll; Append (line entry_A)] ++ [Poll]))
          (Dir (Some (line entry_A +:+ single newline)),
           {| lastSize := String.length (line entry_A +:+ single newline);
              buffer := EmptyString |},
           [Printed stored_A]))
     = [Printed stored_A] ++ List.map Printed [stored_B; stored_C; stored_A].
Proof.
  apply (truncation_seen_then_appends MiniJson.parse_entry).
  - reflexivity.
  - vm_compute. lia.
  - reflexivity.
  - simpl. constructor; [exact line_B_written|].
    constructor; [exact line_C_written|].
    constructor; [exact line_A_written|]. constructor.
Defined.

(** C7 as stated fails when no detection cycle sees the shorter store.
    The tailer has printed entry A; the store is cleared and an entry of
    hypothesis C, whose line is as long as that of A, is appended before
    the next cycle.  The size is what it was, so this cycle and the next
    print nothing: of the one entry appended after the truncation the
    tailer emits none.  No write falls into a cycle. *)
Lemma unseen_truncation_loses_entry :
  start (Dir (Some EmptyString)) = Some reset
  /\ MiniJson.parse_entry (line entry_C) = Some stored_C
  /\ emitted
       (watch
          (List.map Watch.of_event
             [Append (line entry_A); Poll; Clear; Append (line entry_C);
              Poll; Poll])
          (Dir (Some EmptyString), reset, []))
     = [Printed stored_A].
Proof. repeat split; vm_compute; reflexivity. Qed.

(** The line of A arrives in two pieces with a cycle between them, its
    terminator with the line of B. *)
Lemma pieces_do_not_matter_witness :
  watch
    (List.map Watch.of_action
       [Feed.Write (line entry_A); Feed.Cycle;
        Feed.Write (single newline +:+ line entry_B);
        Feed.Write (single newline)]
     ++ [Watch.quiet])
    (Dir (Some EmptyString),
     {| lastSize := String.length EmptyString; buffer := EmptyString |}, [])
  = (Dir (Some (EmptyString
                +:+ Feed.written
                      [Feed.Write (line entry_A); Feed.Cycle;
                       Feed.Write (single newline +:+ line entry_B);
                       Feed.Write (single newline)])),
     {| lastSize :=
          String.length
            (EmptyString
             +:+ Feed.written
                   [Feed.Write (line entry_A); Feed.Cycle;
                    Feed.Write (single newline +:+ line entry_B);
                    Feed.Write (single newline)]);
        buffer :=
          List.last
            (split_nl
               (Feed.written
                  [Feed.Write (line entry_A); Feed.Cycle;
                   Feed.Write (single newline +:+ line entry_B);
                   Feed.Write (single newline)])) EmptyString |},
     [] ++ processNewLines MiniJson.parse_entry
             (lines_of
                (Feed.written
                   [Feed.Write (line entry_A); Feed.Cycle;
                    Feed.Write (single newline +:+ line entry_B);
                    Feed.Write (single newline)])) None).
Proof.
  apply (pieces_do_not_matter MiniJson.parse_entry None EmptyString).
  vm_compute. reflexivity.
Defined.

(** Entry A is in the store when a cycle begins; entry B is appended
    while the cycle runs: the tailer prints A, B and B. *)
Lemma write_inside_cycle_is_printed_twice_witness :
  emitted
    (watch
       [Watch.Cycle
          (List.map (fun l => Watch.Put (l +:+ single newline)) [line entry_B])
          [];
        Watch.quiet]
       (Dir (Some (EmptyString +:+ unlines [line entry_A])),
        {| lastSize := String.length EmptyString; buffer := EmptyString |}, []))
  = List.map Printed ([stored_A] ++ [stored_B] ++ [stored_B]).
Proof.
  apply (write_inside_cycle_is_printed_twice MiniJson.parse_entry EmptyString
           [line entry_A] [line entry_B] [stored_A] [stored_B]).
  - reflexivity.
  - discriminate.
  - constructor; [exact line_A_written | constructor].
  - constructor; [exact line_B_written | constructor].
Defined.

End WatchRuns.
